(** * util/macros.h: ZN_ARRAY_LENGTH, ZN_LIKELY, ZN_UNLIKELY

    The header defines three function-like macros.  A macro is a map from
    expressions to expressions, so each one is embedded as a Rocq function
    on the syntax trees of a small C++ expression fragment, and what a use
    of the macro computes is what the fragment's typing and evaluation
    rules give for its expansion.

    Conventions of the embedding:
    - a macro argument is an expression tree, and an expansion is the
      tree of the macro body with the argument in place of the parameter.
      That is the expression the compiler parses wherever the parameter
      is delimited in the body ([sizeof(a)], [!!(x)]) or the argument is
      a primary or postfix expression, as every expression of array,
      pointer or class type of the fragment is.  Elsewhere the tokens of
      the argument re-associate with what stands beside them:
      [paste_index] and [ZN_ARRAY_LENGTH_parsed] give the parse of [a[0]]
      and of the whole expansion for any argument, [paste_not] the parse
      of [!] before a fallback hint;
    - implementation-defined quantities (the byte sizes of the fundamental
      types, the type behind [size_t], the largest object) are fields of a
      [target] record, constrained by [wf_target];
    - memory is a finite map from byte addresses to scalar values; an
      evaluation that has no defined result gives [None]. *)

From Stdlib Require Import ZArith Lia Bool String.
From Stdlib Require Import Floats.SpecFloat.
From stdpp Require Import base option gmap strings.

Local Open Scope Z_scope.

(** ** Types *)

Inductive signedness := Signed | Unsigned.

Inductive intrank := IChar | IShort | IInt | ILong | ILongLong.

Inductive floatrank := FFloat | FDouble | FLongDouble.

Inductive ctype :=
| Tbool
| Tinteger (r : intrank) (s : signedness)
| Tfloating (f : floatrank)
| Tpointer (t : ctype)
| Tarray (t : ctype) (n : Z)
| Tclass (name : string).

#[global] Instance signedness_eq_dec : EqDecision signedness.
Proof. solve_decision. Defined.

#[global] Instance intrank_eq_dec : EqDecision intrank.
Proof. solve_decision. Defined.

#[global] Instance floatrank_eq_dec : EqDecision floatrank.
Proof. solve_decision. Defined.

#[global] Instance ctype_eq_dec : EqDecision ctype.
Proof. solve_decision. Defined.

Definition rank_index (r : intrank) : Z :=
  match r with
  | IChar => 0 | IShort => 1 | IInt => 2 | ILong => 3 | ILongLong => 4
  end.

Definition rank_max (r1 r2 : intrank) : intrank :=
  if rank_index r1 <=? rank_index r2 then r2 else r1.

(** ** The target: what the implementation defines *)

Record target := {
  char_bit : Z;
  sizeof_bool : Z;
  sizeof_integer : intrank -> Z;
  sizeof_floating : floatrank -> Z;
  sizeof_pointer : Z;
  (* the complete class types of the translation unit and their sizes *)
  sizeof_class : string -> option Z;
  (* the classes that have an operator[] on integers, and the type of the
     element it designates *)
  class_subscript : string -> option ctype;
  (* size_t is the unsigned integer type of this rank *)
  size_t_rank : intrank;
  (* the implementation's limit on the size of an object *)
  max_object_size : Z
}.

Definition int_bits (tgt : target) (r : intrank) : Z :=
  char_bit tgt * sizeof_integer tgt r.

Definition int_min (tgt : target) (r : intrank) (s : signedness) : Z :=
  match s with
  | Signed => - 2 ^ (int_bits tgt r - 1)
  | Unsigned => 0
  end.

Definition int_max (tgt : target) (r : intrank) (s : signedness) : Z :=
  match s with
  | Signed => 2 ^ (int_bits tgt r - 1) - 1
  | Unsigned => 2 ^ int_bits tgt r - 1
  end.

Definition size_max (tgt : target) : Z := int_max tgt (size_t_rank tgt) Unsigned.

Definition Tsize_t (tgt : target) : ctype := Tinteger (size_t_rank tgt) Unsigned.

Definition Tint : ctype := Tinteger IInt Signed.
Definition Tlong : ctype := Tinteger ILong Signed.

(** What the standard guarantees about these quantities: [sizeof(char)] is
    1, a byte has at least 8 bits, every complete object type has a size
    of at least one byte that [size_t] can represent.  [size_t] is taken
    to be [unsigned int] or wider, so that integral promotion leaves it
    alone. *)
Record wf_target (tgt : target) : Prop := {
  wf_char_bit : 8 <= char_bit tgt;
  wf_char : sizeof_integer tgt IChar = 1;
  wf_bool : 1 <= sizeof_bool tgt <= max_object_size tgt;
  wf_integer : forall r, 1 <= sizeof_integer tgt r <= max_object_size tgt;
  wf_floating : forall f, 1 <= sizeof_floating tgt f <= max_object_size tgt;
  wf_pointer : 1 <= sizeof_pointer tgt <= max_object_size tgt;
  wf_class : forall c s, sizeof_class tgt c = Some s -> 1 <= s <= max_object_size tgt;
  wf_size_t : rank_index IInt <= rank_index (size_t_rank tgt);
  wf_max_object : max_object_size tgt <= size_max tgt
}.

(** What g++ guarantees about the sizes: the same, except that a class
    may have size zero (a struct whose only member is a zero-length array,
    which g++ admits as an extension). *)
Record gnu_target (tgt : target) : Prop := {
  gnu_bool : 1 <= sizeof_bool tgt <= max_object_size tgt;
  gnu_integer : forall r, 1 <= sizeof_integer tgt r <= max_object_size tgt;
  gnu_floating : forall f, 1 <= sizeof_floating tgt f <= max_object_size tgt;
  gnu_pointer : 1 <= sizeof_pointer tgt <= max_object_size tgt;
  gnu_class : forall c s, sizeof_class tgt c = Some s -> 0 <= s <= max_object_size tgt;
  gnu_size_t : rank_index IInt <= rank_index (size_t_rank tgt);
  gnu_max_object : max_object_size tgt <= size_max tgt
}.

(** [sizeof] of a type.  [None] for a type that has no size: an incomplete
    class, an array whose bound is not positive or whose size exceeds the
    implementation's limit. *)
Fixpoint sizeof_type (tgt : target) (t : ctype) : option Z :=
  match t with
  | Tbool => Some (sizeof_bool tgt)
  | Tinteger r _ => Some (sizeof_integer tgt r)
  | Tfloating f => Some (sizeof_floating tgt f)
  | Tpointer _ => Some (sizeof_pointer tgt)
  | Tarray t' n =>
      match sizeof_type tgt t' with
      | Some s =>
          if (1 <=? n) && (n * s <=? max_object_size tgt) then Some (n * s) else None
      | None => None
      end
  | Tclass c => sizeof_class tgt c
  end.

(** Array-to-pointer conversion. *)
Definition decay (t : ctype) : ctype :=
  match t with
  | Tarray t' _ => Tpointer t'
  | _ => t
  end.

(** A function parameter declared with an array type has the pointer type
    instead: [void f(int a[10])] declares [int* a]. *)
Definition adjust_parameter (t : ctype) : ctype := decay t.

Definition is_integral (t : ctype) : bool :=
  match t with
  | Tbool | Tinteger _ _ => true
  | _ => false
  end.

Definition is_scalar (t : ctype) : bool :=
  match t with
  | Tbool | Tinteger _ _ | Tfloating _ | Tpointer _ => true
  | _ => false
  end.

Definition is_arithmetic (t : ctype) : bool :=
  match t with
  | Tbool | Tinteger _ _ | Tfloating _ => true
  | _ => false
  end.

(** The type of [a[i]] for an operand of type [t]: the element of an array,
    the pointee of a pointer, what [operator[]] designates for a class. *)
Definition subscript_type (tgt : target) (t : ctype) : option ctype :=
  match decay t with
  | Tpointer elt => Some elt
  | Tclass c => class_subscript tgt c
  | _ => None
  end.

(** ** Values and the operators on them *)

Inductive val :=
| Vbool (b : bool)
| Vint (r : intrank) (s : signedness) (n : Z)
| Vfloat (f : floatrank) (x : spec_float)
| Vptr (a : Z).

Definition itype : Type := intrank * signedness.

Definition in_range (tgt : target) (t : itype) (n : Z) : bool :=
  (int_min tgt t.1 t.2 <=? n) && (n <=? int_max tgt t.1 t.2).

(** The type of a decimal literal without suffix: the first of [int],
    [long] and [long long] that holds its value (a literal that none of
    them holds is ill formed; it is given the last). *)
Definition literal_rank (tgt : target) (n : Z) : intrank :=
  if in_range tgt (IInt, Signed) n then IInt
  else if in_range tgt (ILong, Signed) n then ILong
  else ILongLong.

(** Conversion of an integer to an integer type: the value modulo
    [2 ^ bits], taken in the range of the type. *)
Definition wrap (tgt : target) (t : itype) (n : Z) : Z :=
  match t.2 with
  | Unsigned => n mod 2 ^ int_bits tgt t.1
  | Signed =>
      (n + 2 ^ (int_bits tgt t.1 - 1)) mod 2 ^ int_bits tgt t.1
      - 2 ^ (int_bits tgt t.1 - 1)
  end.

(** Integral promotion: a type of rank below [int] becomes [int] when
    [int] holds all its values and [unsigned int] otherwise. *)
Definition promote (tgt : target) (t : itype) : itype :=
  if rank_index t.1 <? rank_index IInt then
    if in_range tgt (IInt, Signed) (int_min tgt t.1 t.2)
       && in_range tgt (IInt, Signed) (int_max tgt t.1 t.2)
    then (IInt, Signed)
    else (IInt, Unsigned)
  else t.

(** The usual arithmetic conversions on two promoted integer types. *)
Definition common_type (tgt : target) (t1 t2 : itype) : itype :=
  match t1.2, t2.2 with
  | Signed, Signed => (rank_max t1.1 t2.1, Signed)
  | Unsigned, Unsigned => (rank_max t1.1 t2.1, Unsigned)
  | Unsigned, Signed =>
      if rank_index t2.1 <=? rank_index t1.1 then t1
      else if int_max tgt t1.1 Unsigned <=? int_max tgt t2.1 Signed then t2
      else (t2.1, Unsigned)
  | Signed, Unsigned =>
      if rank_index t1.1 <=? rank_index t2.1 then t2
      else if int_max tgt t2.1 Unsigned <=? int_max tgt t1.1 Signed then t1
      else (t1.1, Unsigned)
  end.

(** The promoted type of an integral operand. *)
Definition promoted_type (tgt : target) (t : ctype) : option itype :=
  match t with
  | Tbool => Some (IInt, Signed)
  | Tinteger r s => Some (promote tgt (r, s))
  | _ => None
  end.

(** An integral value after promotion: its type and its number. *)
Definition promoted_val (tgt : target) (v : val) : option (itype * Z) :=
  match v with
  | Vbool b => Some ((IInt, Signed), Z.b2z b)
  | Vint r s n => Some (promote tgt (r, s), n)
  | _ => None
  end.

(** Contextual conversion to [bool]: a scalar is true when it is not zero
    (a negative zero is zero, a NaN is not). *)
Definition truth (v : val) : bool :=
  match v with
  | Vbool b => b
  | Vint _ _ n => negb (n =? 0)
  | Vfloat _ (S754_zero _) => false
  | Vfloat _ _ => true
  | Vptr a => negb (a =? 0)
  end.

(** [!v] *)
Definition sem_not (v : val) : val := Vbool (negb (truth v)).

(** [v1 == v2]: two integers after the usual arithmetic conversions, two
    pointers, or two floating-point values of one type. *)
Definition sem_eq (tgt : target) (v1 v2 : val) : option val :=
  match v1, v2 with
  | Vptr a1, Vptr a2 => Some (Vbool (a1 =? a2))
  | Vfloat f1 x1, Vfloat f2 x2 =>
      if decide (f1 = f2) then Some (Vbool (SFeqb x1 x2)) else None
  | _, _ =>
      '(t1, n1) ← promoted_val tgt v1;
      '(t2, n2) ← promoted_val tgt v2;
      let t := common_type tgt t1 t2 in
      Some (Vbool (wrap tgt t n1 =? wrap tgt t n2))
  end.

(** [v1 / v2] on integers: truncating division in the common type.  No
    result for a zero divisor or a quotient the type cannot represent. *)
Definition sem_div (tgt : target) (v1 v2 : val) : option val :=
  '(t1, n1) ← promoted_val tgt v1;
  '(t2, n2) ← promoted_val tgt v2;
  let t := common_type tgt t1 t2 in
  let a := wrap tgt t n1 in
  let b := wrap tgt t n2 in
  if b =? 0 then None
  else if in_range tgt t (Z.quot a b) then Some (Vint t.1 t.2 (Z.quot a b))
  else None.

(** The integer part of a floating-point value, rounded toward zero; none
    for an infinity or a NaN. *)
Definition float_to_Z (x : spec_float) : option Z :=
  match x with
  | S754_zero _ => Some 0
  | S754_finite s m e =>
      let a := if 0 <=? e then Z.pos m * 2 ^ e else Z.pos m / 2 ^ (- e) in
      Some (if s then - a else a)
  | _ => None
  end.

(** Conversion of an argument to a parameter of type [long]: defined on
    arithmetic values; a floating-point value is truncated, with no result
    when [long] cannot hold its integer part. *)
Definition to_long (tgt : target) (v : val) : option val :=
  match v with
  | Vbool b => Some (Vint ILong Signed (Z.b2z b))
  | Vint _ _ n => Some (Vint ILong Signed (wrap tgt (ILong, Signed) n))
  | Vfloat _ x =>
      z ← float_to_Z x;
      if in_range tgt (ILong, Signed) z then Some (Vint ILong Signed z) else None
  | Vptr _ => None
  end.

(** The value stored by [x++] in an object of type [t] that holds [v]. *)
Definition incremented (tgt : target) (t : ctype) (v : val) : option val :=
  match t, v with
  | Tinteger r s, Vint _ _ n =>
      let p := promote tgt (r, s) in
      match p.2 with
      | Unsigned => Some (Vint r s (wrap tgt (r, s) (n + 1)))
      | Signed =>
          if in_range tgt p (n + 1) then Some (Vint r s (wrap tgt (r, s) (n + 1)))
          else None
      end
  | Tpointer t', Vptr a =>
      s ← sizeof_type tgt t'; Some (Vptr (a + s))
  | _, _ => None
  end.

(** Whether a value can be the content of an object of type [t]. *)
Definition has_type (tgt : target) (v : val) (t : ctype) : bool :=
  match v, t with
  | Vbool _, Tbool => true
  | Vint r s n, Tinteger r' s' =>
      bool_decide (r = r') && bool_decide (s = s') && in_range tgt (r, s) n
  | Vfloat f _, Tfloating f' => bool_decide (f = f')
  | Vptr _, Tpointer _ => true
  | _, _ => false
  end.

(** ** Expressions *)

Inductive expr :=
| Ebool (b : bool)                    (* true, false *)
| Eint (n : Z)                        (* a decimal literal *)
| Evar (x : string)                   (* x *)
| Eindex (a i : expr)                 (* a[i] *)
| Epostinc (e : expr)                 (* e++ *)
| Enot (e : expr)                     (* !e *)
| Eeq (e1 e2 : expr)                  (* e1 == e2 *)
| Ediv (e1 e2 : expr)                 (* e1 / e2 *)
| Esizeof (e : expr)                  (* sizeof(e) *)
| Ebuiltin_expect (e c : expr).       (* __builtin_expect(e, c) *)

(** ** The macros *)

(** [#define ZN_ARRAY_LENGTH(a) (sizeof(a) / sizeof(a[0]))] *)
Definition ZN_ARRAY_LENGTH (a : expr) : expr :=
  Ediv (Esizeof a) (Esizeof (Eindex a (Eint 0))).

(** [#if defined(__GNUC__)]
    [#define ZN_LIKELY(x) __builtin_expect(!!(x), 1)]
    [#else]
    [#define ZN_LIKELY(x) x] *)
Definition ZN_LIKELY (defined_GNUC : bool) (x : expr) : expr :=
  if defined_GNUC then Ebuiltin_expect (Enot (Enot x)) (Eint 1) else x.

(** [#if defined(__GNUC__)]
    [#define ZN_UNLIKELY(x) __builtin_expect(!!(x), 0)]
    [#else]
    [#define ZN_UNLIKELY(x) x] *)
Definition ZN_UNLIKELY (defined_GNUC : bool) (x : expr) : expr :=
  if defined_GNUC then Ebuiltin_expect (Enot (Enot x)) (Eint 0) else x.

(** ** Typing *)

Definition is_lvalue (e : expr) : bool :=
  match e with
  | Evar _ | Eindex _ _ => true
  | _ => false
  end.

Section Typing.
Variable tgt : target.
(* the declared types of the variables in scope *)
Variable Γ : gmap string ctype.

(** The type of an expression; [None] when it is ill-formed (or outside
    the fragment: arithmetic on floating-point operands). *)
Fixpoint typeof (e : expr) : option ctype :=
  match e with
  | Ebool _ => Some Tbool
  | Eint n => Some (Tinteger (literal_rank tgt n) Signed)
  | Evar x => Γ !! x
  | Eindex a i =>
      ta ← typeof a;
      ti ← typeof i;
      if is_integral ti then
        t ← subscript_type tgt ta; _ ← sizeof_type tgt t; Some t
      else None
  | Epostinc e1 =>
      t ← typeof e1;
      if is_lvalue e1 then
        match t with
        | Tinteger _ _ => Some t
        | Tpointer t' => _ ← sizeof_type tgt t'; Some t
        | _ => None
        end
      else None
  | Enot e1 =>
      t ← typeof e1;
      if is_scalar (decay t) then Some Tbool else None
  | Eeq e1 e2 =>
      t1 ← typeof e1;
      t2 ← typeof e2;
      match decay t1, decay t2 with
      | Tpointer p1, Tpointer p2 =>
          if decide (p1 = p2) then Some Tbool else None
      | Tfloating f1, Tfloating f2 =>
          if decide (f1 = f2) then Some Tbool else None
      | u1, u2 =>
          _ ← promoted_type tgt u1; _ ← promoted_type tgt u2; Some Tbool
      end
  | Ediv e1 e2 =>
      t1 ← typeof e1;
      t2 ← typeof e2;
      p1 ← promoted_type tgt t1;
      p2 ← promoted_type tgt t2;
      Some (Tinteger (common_type tgt p1 p2).1 (common_type tgt p1 p2).2)
  | Esizeof e1 =>
      t ← typeof e1;
      _ ← sizeof_type tgt t;
      Some (Tsize_t tgt)
  | Ebuiltin_expect e1 c =>
      t1 ← typeof e1;
      t2 ← typeof c;
      if is_arithmetic t1 && is_arithmetic t2 then Some Tlong else None
  end.

(** ** Constant evaluation

    What the compiler computes for a constant expression: there is no
    memory, so reading or modifying an object has no constant value. *)
Fixpoint const_eval (e : expr) : option val :=
  match e with
  | Ebool b => Some (Vbool b)
  | Eint n => Some (Vint (literal_rank tgt n) Signed n)
  | Evar _ | Eindex _ _ | Epostinc _ => None
  | Enot e1 => v ← const_eval e1; Some (sem_not v)
  | Eeq e1 e2 => v1 ← const_eval e1; v2 ← const_eval e2; sem_eq tgt v1 v2
  | Ediv e1 e2 => v1 ← const_eval e1; v2 ← const_eval e2; sem_div tgt v1 v2
  | Esizeof e1 =>
      t ← typeof e1;
      s ← sizeof_type tgt t;
      Some (Vint (size_t_rank tgt) Unsigned s)
  | Ebuiltin_expect e1 c =>
      v ← const_eval e1; _ ← const_eval c; to_long tgt v
  end.
End Typing.

(** ** Evaluation *)

(** A computation reads and updates the memory, or has no result. *)
Definition M (A : Type) : Type := gmap Z val -> option (A * gmap Z val).

Definition ret {A} (a : A) : M A := fun m => Some (a, m).

Definition bind {A B} (c : M A) (k : A -> M B) : M B :=
  fun m => match c m with
           | Some (a, m') => k a m'
           | None => None
           end.

Definition lift {A} (o : option A) : M A :=
  fun m => match o with
           | Some a => Some (a, m)
           | None => None
           end.

Notation "x <- c ;; k" := (bind c (fun x => k))
  (at level 100, c at next level, right associativity).

Inductive mode := LV | RV.

Inductive stmt :=
| Sskip
| Sexpr (e : expr)                    (* e; *)
| Sreturn (e : expr)                  (* return e; *)
| Sseq (s1 s2 : stmt)                 (* s1 s2 *)
| Sif (c : expr) (s1 s2 : stmt)       (* if (c) s1 else s2 *)
| Swhile (c : expr) (s : stmt).       (* while (c) s *)

Inductive outcome :=
| Onormal
| Oreturn (v : val).

Section Evaluation.
Variable tgt : target.
Variable Γ : gmap string ctype.
(* the addresses of the variables in scope *)
Variable ρ : gmap string Z.

Definition load (t : ctype) (a : Z) : M val :=
  fun m => match m !! a with
           | Some v => if has_type tgt v t then Some (v, m) else None
           | None => None
           end.

Definition store (a : Z) (v : val) : M unit :=
  fun m => Some (tt, <[a := v]> m).

(** The result of an lvalue that designates the object of type [t] at
    address [a]: the address itself when the lvalue is wanted, otherwise
    the content of the object, or a pointer to its first element when
    it is an array. *)
Definition access (md : mode) (t : ctype) (a : Z) : M val :=
  match md, t with
  | LV, _ => ret (Vptr a)
  | RV, Tarray _ _ => ret (Vptr a)
  | RV, Tclass _ => lift None
  | RV, _ => load t a
  end.

Definition prvalue (md : mode) (c : M val) : M val :=
  match md with
  | RV => c
  | LV => lift None
  end.

(** Operands are evaluated from left to right.  An access outside the
    bounds of an object is not detected, and a call of a class's
    [operator[]] is outside the fragment (no result). *)
Fixpoint eval (md : mode) (e : expr) : M val :=
  match e with
  | Ebool b => prvalue md (ret (Vbool b))
  | Eint n => prvalue md (ret (Vint (literal_rank tgt n) Signed n))
  | Evar x =>
      a <- lift (ρ !! x);;
      t <- lift (Γ !! x);;
      access md t a
  | Eindex a i =>
      t <- lift (typeof tgt Γ e);;
      s <- lift (sizeof_type tgt t);;
      p <- eval RV a;;
      vi <- eval RV i;;
      match p, promoted_val tgt vi with
      | Vptr base, Some (_, n) => access md t (base + n * s)
      | _, _ => lift None
      end
  | Epostinc e1 =>
      prvalue md
        (t <- lift (typeof tgt Γ e1);;
         p <- eval LV e1;;
         match p with
         | Vptr a =>
             v <- load t a;;
             v' <- lift (incremented tgt t v);;
             _ <- store a v';;
             ret v
         | _ => lift None
         end)
  | Enot e1 =>
      prvalue md (v <- eval RV e1;; ret (sem_not v))
  | Eeq e1 e2 =>
      prvalue md
        (v1 <- eval RV e1;; v2 <- eval RV e2;; lift (sem_eq tgt v1 v2))
  | Ediv e1 e2 =>
      prvalue md
        (v1 <- eval RV e1;; v2 <- eval RV e2;; lift (sem_div tgt v1 v2))
  | Esizeof e1 =>
      (* the operand is not evaluated *)
      prvalue md
        (t <- lift (typeof tgt Γ e1);;
         s <- lift (sizeof_type tgt t);;
         ret (Vint (size_t_rank tgt) Unsigned s))
  | Ebuiltin_expect e1 c =>
      (* the value of the first argument, as a long *)
      prvalue md
        (v <- eval RV e1;; _ <- eval RV c;; lift (to_long tgt v))
  end.

(** A loop whose condition and body are given as computations; [fuel]
    bounds the number of its iterations. *)
Fixpoint loop (cond : M val) (body : M outcome) (fuel : nat) : M outcome :=
  match fuel with
  | O => lift None
  | S fuel' =>
      v <- cond;;
      if truth v then
        o <- body;;
        match o with
        | Onormal => loop cond body fuel'
        | Oreturn r => ret (Oreturn r)
        end
      else ret Onormal
  end.

(** Statements.  A condition is contextually converted to [bool]. *)
Fixpoint exec (fuel : nat) (s : stmt) : M outcome :=
  match s with
  | Sskip => ret Onormal
  | Sexpr e => _ <- eval RV e;; ret Onormal
  | Sreturn e => v <- eval RV e;; ret (Oreturn v)
  | Sseq s1 s2 =>
      o <- exec fuel s1;;
      match o with
      | Onormal => exec fuel s2
      | Oreturn v => ret (Oreturn v)
      end
  | Sif c s1 s2 =>
      v <- eval RV c;;
      if truth v then exec fuel s1 else exec fuel s2
  | Swhile c body => loop (eval RV c) (exec fuel body) fuel
  end.
End Evaluation.

(** ** Two targets *)

(** GCC on x86-64 Linux (LP64); [__GNUC__] is defined. *)
Definition gcc_x86_64 : target := {|
  char_bit := 8;
  sizeof_bool := 1;
  sizeof_integer r :=
    match r with
    | IChar => 1 | IShort => 2 | IInt => 4 | ILong => 8 | ILongLong => 8
    end;
  sizeof_floating f :=
    match f with
    | FFloat => 4 | FDouble => 8 | FLongDouble => 16
    end;
  sizeof_pointer := 8;
  sizeof_class c :=
    if String.eqb c "Vector3i" then Some 12
    else if String.eqb c "std::vector<int>" then Some 24
    else None;
  class_subscript c :=
    if String.eqb c "Vector3i" then Some Tint
    else if String.eqb c "std::vector<int>" then Some Tint
    else None;
  size_t_rank := ILong;
  max_object_size := 2 ^ 63 - 1
|}.

(** MSVC on x64 Windows (LLP64); [__GNUC__] is not defined. *)
Definition msvc_x64 : target := {|
  char_bit := 8;
  sizeof_bool := 1;
  sizeof_integer r :=
    match r with
    | IChar => 1 | IShort => 2 | IInt => 4 | ILong => 4 | ILongLong => 8
    end;
  sizeof_floating f :=
    match f with
    | FFloat => 4 | FDouble => 8 | FLongDouble => 8
    end;
  sizeof_pointer := 8;
  sizeof_class c :=
    if String.eqb c "Vector3i" then Some 12
    else if String.eqb c "std::vector<int>" then Some 24
    else None;
  class_subscript c :=
    if String.eqb c "Vector3i" then Some Tint
    else if String.eqb c "std::vector<int>" then Some Tint
    else None;
  size_t_rank := ILongLong;
  max_object_size := 2 ^ 31 - 1
|}.

(** What the expansion computes, as a function of the type of the
    argument alone. *)
Definition array_length_of_type (tgt : target) (t : ctype) : option val :=
  total ← sizeof_type tgt t;
  elt ← subscript_type tgt t;
  s ← sizeof_type tgt elt;
  sem_div tgt (Vint (size_t_rank tgt) Unsigned total)
              (Vint (size_t_rank tgt) Unsigned s).

(** g++ on x86-64 with a class of size zero in the translation unit:
    [struct Flex { int tail[0]; };]. *)
Definition gcc_x86_64_flex : target := {|
  char_bit := char_bit gcc_x86_64;
  sizeof_bool := sizeof_bool gcc_x86_64;
  sizeof_integer := sizeof_integer gcc_x86_64;
  sizeof_floating := sizeof_floating gcc_x86_64;
  sizeof_pointer := sizeof_pointer gcc_x86_64;
  sizeof_class c :=
    if String.eqb c "Flex" then Some 0 else sizeof_class gcc_x86_64 c;
  class_subscript := class_subscript gcc_x86_64;
  size_t_rank := size_t_rank gcc_x86_64;
  max_object_size := max_object_size gcc_x86_64
|}.

(** ** Hinting the branches of a program *)

(** What decides a branch: the truth value of the condition and the memory
    its evaluation leaves. *)
Definition decision (r : option (val * gmap Z val)) : option (bool * gmap Z val) :=
  match r with
  | Some (v, m) => Some (truth v, m)
  | None => None
  end.

Inductive hint := NoHint | Likely | Unlikely.

Definition hint_cond (defined_GNUC : bool) (h : hint) (c : expr) : expr :=
  match h with
  | NoHint => c
  | Likely => ZN_LIKELY defined_GNUC c
  | Unlikely => ZN_UNLIKELY defined_GNUC c
  end.

(** The program [s] with the condition of every [if] and [while] wrapped as
    [h] chooses for it. *)
Fixpoint annotate (defined_GNUC : bool) (h : expr -> hint) (s : stmt) : stmt :=
  match s with
  | Sskip | Sexpr _ | Sreturn _ => s
  | Sseq s1 s2 => Sseq (annotate defined_GNUC h s1) (annotate defined_GNUC h s2)
  | Sif c s1 s2 =>
      Sif (hint_cond defined_GNUC (h c) c)
          (annotate defined_GNUC h s1) (annotate defined_GNUC h s2)
  | Swhile c body =>
      Swhile (hint_cond defined_GNUC (h c) c) (annotate defined_GNUC h body)
  end.

(** ** The expansions as they are parsed

    A macro is expanded by putting the tokens of the argument where the
    parameter stands, and the result is parsed afterwards.  A tree stands
    for its tokens, with no more parentheses than it needs: an operand
    is in parentheses when its operator binds less than the one above it
    ([==] less than [/], both less than [!] and [sizeof], these less
    than the postfix [[ ]], [++] and the call). *)

Definition is_binary (e : expr) : bool :=
  match e with
  | Eeq _ _ | Ediv _ _ => true
  | _ => false
  end.

(** Literals, names, and the postfix expressions. *)
Definition is_postfix (e : expr) : bool :=
  match e with
  | Ebool _ | Eint _ | Evar _ | Eindex _ _ | Epostinc _ | Ebuiltin_expect _ _ => true
  | _ => false
  end.

(** The expression that the tokens of [e] followed by [[i]] are: the
    subscript applies to the last operand of [e].  After [sizeof(e1)] it
    applies to [(e1)], the result being the operand of [sizeof]. *)
Fixpoint paste_index (e i : expr) : expr :=
  match e with
  | Enot e1 => Enot (if is_binary e1 then Eindex e1 i else paste_index e1 i)
  | Esizeof e1 => Esizeof (Eindex e1 i)
  | Eeq e1 e2 =>
      Eeq e1 (match e2 with Eeq _ _ => Eindex e2 i | _ => paste_index e2 i end)
  | Ediv e1 e2 =>
      Ediv e1 (if is_binary e2 then Eindex e2 i else paste_index e2 i)
  | _ => Eindex e i
  end.

(** [(sizeof(a) / sizeof(a[0]))] as it is parsed: the first [a] is
    delimited, the second is not. *)
Definition ZN_ARRAY_LENGTH_parsed (a : expr) : expr :=
  Ediv (Esizeof a) (Esizeof (paste_index a (Eint 0))).

(** The expression that [!] followed by the tokens of [e] is: the
    operator applies to the first operand of [e].  The left operand of a
    division is in parentheses when it is an equality. *)
Fixpoint paste_not (e : expr) : expr :=
  match e with
  | Eeq e1 e2 => Eeq (paste_not e1) e2
  | Ediv e1 e2 =>
      match e1 with
      | Eeq _ _ => Ediv (Enot e1) e2
      | _ => Ediv (paste_not e1) e2
      end
  | _ => Enot e
  end.

(** [!ZN_LIKELY(x)] and [!ZN_UNLIKELY(x)] as they are parsed: with
    [__GNUC__] the macro expands to a call, which [!] applies to; without
    it, to the tokens of [x], which are not delimited. *)
Definition not_ZN_LIKELY (defined_GNUC : bool) (x : expr) : expr :=
  if defined_GNUC then Enot (ZN_LIKELY true x) else paste_not x.

Definition not_ZN_UNLIKELY (defined_GNUC : bool) (x : expr) : expr :=
  if defined_GNUC then Enot (ZN_UNLIKELY true x) else paste_not x.

(** ** A scope for the examples

    [int a[1024]; Vector3i one[1]; float grid[5][3]; float rows[5][3];]
    [int* p; int i; bool flag;] and a function parameter declared as
    [int param[1024]]. *)
Definition sample_scope : gmap string ctype :=
  list_to_map
    [ ("a", Tarray Tint 1024);
      ("one", Tarray (Tclass "Vector3i") 1);
      ("grid", Tarray (Tarray (Tfloating FFloat) 3) 5);
      ("rows", Tarray (Tarray (Tfloating FFloat) 3) 5);
      ("p", Tpointer Tint);
      ("i", Tint);
      ("flag", Tbool);
      ("param", adjust_parameter (Tarray Tint 1024)) ]%string.

Definition sample_addresses : gmap string Z :=
  list_to_map
    [ ("a", 4096); ("one", 8192); ("grid", 8208); ("rows", 8268);
      ("p", 8328); ("i", 8336); ("flag", 8340); ("param", 8344) ]%string.

(** The same with [std::vector<int> vec; Flex flex[4];]. *)
Definition class_scope : gmap string ctype :=
  <["vec"%string := Tclass "std::vector<int>"]>
    (<["flex"%string := Tarray (Tclass "Flex") 4]> sample_scope).

(** [a[2] == 77], [p == a], [i == 2], [flag == true], [param == a]. *)
Definition sample_memory : gmap Z val :=
  list_to_map
    [ (4104, Vint IInt Signed 77); (8328, Vptr 4096);
      (8336, Vint IInt Signed 2); (8340, Vbool true); (8344, Vptr 4096) ].

(** ** The header as the preprocessor reads it

    [macros.h] is a sequence of directives.  A macro table maps the names
    that are defined to their definitions; processing a directive updates
    the table.  A definition of a name that is defined already replaces
    the earlier one, as g++ and MSVC do (with a warning); [#undef]
    removes a definition; [#error] stops the translation. *)

Inductive macro :=
| Object_like (replacement : option expr)        (* #define NAME replacement *)
| Function_like (param : string) (body : expr).  (* #define NAME(param) body *)

#[warnings="-register-all"]
Inductive directive :=
| Define (name : string) (m : macro)
| Undef (name : string)                                       (* #undef NAME *)
| Error                                                       (* #error *)
| Ifndef (name : string) (body : list directive)              (* #ifndef ... #endif *)
| If_defined (name : string) (body orelse : list directive).  (* #if defined(..) ... #else ... #endif *)

Fixpoint preprocess (d : directive) (tbl : gmap string macro)
  : option (gmap string macro) :=
  let fix group (ds : list directive) (tbl : gmap string macro) :=
    match ds with
    | [] => Some tbl
    | d' :: ds' =>
        match preprocess d' tbl with
        | Some tbl' => group ds' tbl'
        | None => None
        end
    end in
  match d with
  | Define name m => Some (<[name := m]> tbl)
  | Undef name => Some (delete name tbl)
  | Error => None
  | Ifndef name body =>
      match tbl !! name with
      | None => group body tbl
      | Some _ => Some tbl
      end
  | If_defined name body orelse =>
      match tbl !! name with
      | Some _ => group body tbl
      | None => group orelse tbl
      end
  end.

(** [#include] of a file that holds the directives [ds]. *)
Fixpoint include (ds : list directive) (tbl : gmap string macro)
  : option (gmap string macro) :=
  match ds with
  | [] => Some tbl
  | d :: ds' =>
      match preprocess d tbl with
      | Some tbl' => include ds' tbl'
      | None => None
      end
  end.

(** The replacement of the parameter [p] by the argument in a macro body. *)
Fixpoint subst (p : string) (arg : expr) (body : expr) : expr :=
  match body with
  | Ebool _ | Eint _ => body
  | Evar x => if decide (x = p) then arg else body
  | Eindex a i => Eindex (subst p arg a) (subst p arg i)
  | Epostinc e => Epostinc (subst p arg e)
  | Enot e => Enot (subst p arg e)
  | Eeq e1 e2 => Eeq (subst p arg e1) (subst p arg e2)
  | Ediv e1 e2 => Ediv (subst p arg e1) (subst p arg e2)
  | Esizeof e => Esizeof (subst p arg e)
  | Ebuiltin_expect e c => Ebuiltin_expect (subst p arg e) (subst p arg c)
  end.


(** The names a directive can define or undefine. *)
Fixpoint names_of (d : directive) : list string :=
  let fix group (ds : list directive) :=
    match ds with
    | [] => []
    | d' :: ds' => names_of d' ++ group ds'
    end in
  match d with
  | Define name _ => [name]
  | Undef name => [name]
  | Error => []
  | Ifndef _ body => group body
  | If_defined _ body orelse => group body ++ group orelse
  end.

Definition names_of_file (ds : list directive) : list string :=
  flat_map names_of ds.

(** The file, directive by directive. *)
Definition macros_h : list directive :=
  [ Ifndef "ZYLANN_MACROS_H"
      [ Define "ZYLANN_MACROS_H" (Object_like None);
        Define "ZN_ARRAY_LENGTH"
          (Function_like "a"
             (Ediv (Esizeof (Evar "a")) (Esizeof (Eindex (Evar "a") (Eint 0)))));
        If_defined "__GNUC__"
          [ Define "ZN_LIKELY"
              (Function_like "x"
                 (Ebuiltin_expect (Enot (Enot (Evar "x"))) (Eint 1)));
            Define "ZN_UNLIKELY"
              (Function_like "x"
                 (Ebuiltin_expect (Enot (Enot (Evar "x"))) (Eint 0))) ]
          [ Define "ZN_LIKELY" (Function_like "x" (Evar "x"));
            Define "ZN_UNLIKELY" (Function_like "x" (Evar "x")) ] ] ]%string.

(** The names the file defines. *)
Definition macros_h_names : list string :=
  [ "ZYLANN_MACROS_H"; "ZN_ARRAY_LENGTH"; "ZN_LIKELY"; "ZN_UNLIKELY" ]%string.

(** Whether [__GNUC__] is defined. *)
Definition defined_GNUC (tbl : gmap string macro) : bool :=
  bool_decide (is_Some (tbl !! "__GNUC__"%string)).

(** The macros a compiler predefines, as far as the file looks: GCC
    defines [__GNUC__] (here as 13), MSVC does not. *)
Definition gcc_predefined : gmap string macro :=
  {[ "__GNUC__"%string := Object_like (Some (Eint 13)) ]}.

Definition msvc_predefined : gmap string macro :=
  {[ "_MSC_VER"%string := Object_like (Some (Eint 1939)) ]}.

(** * Properties *)

(** ** Sizes *)

Lemma sizeof_type_bounds tgt t s :
  wf_target tgt ->
  sizeof_type tgt t = Some s ->
  1 <= s <= max_object_size tgt.
Proof.
  intros Hwf. revert s.
  induction t as [ | r sg | f | t IH | t IH n | c ]; intros s Hs; simpl in Hs.
  - injection Hs as <-. apply (wf_bool _ Hwf).
  - injection Hs as <-. apply (wf_integer _ Hwf).
  - injection Hs as <-. apply (wf_floating _ Hwf).
  - injection Hs as <-. apply (wf_pointer _ Hwf).
  - destruct (sizeof_type tgt t) as [s'|]; [|discriminate].
    destruct (1 <=? n) eqn:Hn; simpl in Hs; [|discriminate].
    destruct (n * s' <=? max_object_size tgt) eqn:Hfit; [|discriminate].
    injection Hs as <-.
    specialize (IH s' eq_refl).
    apply Z.leb_le in Hn. apply Z.leb_le in Hfit. nia.
  - eapply wf_class; eauto.
Qed.

Lemma sizeof_array tgt T N s :
  sizeof_type tgt T = Some s ->
  1 <= N ->
  N * s <= max_object_size tgt ->
  sizeof_type tgt (Tarray T N) = Some (N * s).
Proof.
  intros Hs HN Hfit. simpl. rewrite Hs.
  destruct (Z.leb_spec 1 N); [|lia].
  destruct (Z.leb_spec (N * s) (max_object_size tgt)); [|lia].
  reflexivity.
Qed.

Lemma sizeof_array_inv tgt T N total :
  sizeof_type tgt (Tarray T N) = Some total ->
  exists s, sizeof_type tgt T = Some s /\ 1 <= N /\
            N * s <= max_object_size tgt /\ total = N * s.
Proof.
  simpl. destruct (sizeof_type tgt T) as [s|]; [|discriminate].
  destruct (Z.leb_spec 1 N); simpl; [|discriminate].
  destruct (Z.leb_spec (N * s) (max_object_size tgt)); [|discriminate].
  intros [= <-]. exists s. auto.
Qed.

(** ** Arithmetic on [size_t] *)

Lemma wf_target_gnu tgt : wf_target tgt -> gnu_target tgt.
Proof.
  intros Hwf. constructor.
  - apply (wf_bool _ Hwf).
  - apply (wf_integer _ Hwf).
  - apply (wf_floating _ Hwf).
  - apply (wf_pointer _ Hwf).
  - intros c s Hc. pose proof (wf_class _ Hwf c s Hc). lia.
  - apply (wf_size_t _ Hwf).
  - apply (wf_max_object _ Hwf).
Qed.

Lemma sizeof_type_nonneg tgt t s :
  gnu_target tgt ->
  sizeof_type tgt t = Some s ->
  0 <= s <= max_object_size tgt.
Proof.
  intros Hg. revert s.
  induction t as [ | r sg | f | t IH | t IH n | c ]; intros s Hs; simpl in Hs.
  - injection Hs as <-. pose proof (gnu_bool _ Hg). lia.
  - injection Hs as <-. pose proof (gnu_integer _ Hg r). lia.
  - injection Hs as <-. pose proof (gnu_floating _ Hg f). lia.
  - injection Hs as <-. pose proof (gnu_pointer _ Hg). lia.
  - destruct (sizeof_type tgt t) as [s'|]; [|discriminate].
    destruct (1 <=? n) eqn:Hn; simpl in Hs; [|discriminate].
    destruct (n * s' <=? max_object_size tgt) eqn:Hfit; [|discriminate].
    injection Hs as <-.
    specialize (IH s' eq_refl).
    apply Z.leb_le in Hn. apply Z.leb_le in Hfit. nia.
  - eapply gnu_class; eauto.
Qed.

Lemma promote_size_t_rank tgt :
  rank_index IInt <= rank_index (size_t_rank tgt) ->
  promote tgt (size_t_rank tgt, Unsigned) = (size_t_rank tgt, Unsigned).
Proof.
  intros H. unfold promote. cbn [fst snd].
  apply Z.ltb_ge in H. rewrite H. reflexivity.
Qed.

Lemma promote_size_t tgt :
  wf_target tgt ->
  promote tgt (size_t_rank tgt, Unsigned) = (size_t_rank tgt, Unsigned).
Proof. intros Hwf. apply promote_size_t_rank, (wf_size_t _ Hwf). Qed.

Lemma rank_max_idem r : rank_max r r = r.
Proof. unfold rank_max. destruct (_ <=? _); reflexivity. Qed.

Lemma wrap_size_t tgt n :
  0 <= n <= size_max tgt ->
  wrap tgt (size_t_rank tgt, Unsigned) n = n.
Proof.
  intros Hn. unfold wrap, size_max, int_max in *. simpl.
  apply Z.mod_small. lia.
Qed.

(** Dividing a [size_t] by a nonzero [size_t] gives the truncated quotient,
    again a [size_t]. *)
Lemma sem_div_size_t_rank tgt a b :
  rank_index IInt <= rank_index (size_t_rank tgt) ->
  0 <= a <= size_max tgt ->
  1 <= b <= size_max tgt ->
  sem_div tgt (Vint (size_t_rank tgt) Unsigned a) (Vint (size_t_rank tgt) Unsigned b)
  = Some (Vint (size_t_rank tgt) Unsigned (a / b)).
Proof.
  intros Hr Ha Hb. unfold sem_div. simpl.
  rewrite promote_size_t_rank by assumption. simpl.
  unfold common_type. simpl. rewrite rank_max_idem.
  rewrite !wrap_size_t by lia.
  destruct (Z.eqb_spec b 0); [lia|].
  rewrite Z.quot_div_nonneg by lia.
  assert (0 <= a / b <= a).
  { split; [apply Z.div_pos; lia|].
    apply Z.div_le_upper_bound; nia. }
  assert (in_range tgt (size_t_rank tgt, Unsigned) (a / b) = true) as ->.
  { unfold in_range, size_max in *. cbn [fst snd int_min].
    apply andb_true_iff. split; apply Z.leb_le; lia. }
  reflexivity.
Qed.

Lemma sem_div_size_t tgt a b :
  wf_target tgt ->
  0 <= a <= size_max tgt ->
  1 <= b <= size_max tgt ->
  sem_div tgt (Vint (size_t_rank tgt) Unsigned a) (Vint (size_t_rank tgt) Unsigned b)
  = Some (Vint (size_t_rank tgt) Unsigned (a / b)).
Proof. intros Hwf. apply sem_div_size_t_rank, (wf_size_t _ Hwf). Qed.

(** Dividing a [size_t] by the [size_t] zero has no result. *)
Lemma sem_div_size_t_zero tgt a :
  rank_index IInt <= rank_index (size_t_rank tgt) ->
  sem_div tgt (Vint (size_t_rank tgt) Unsigned a) (Vint (size_t_rank tgt) Unsigned 0)
  = None.
Proof.
  intros Hr. unfold sem_div. cbn [promoted_val mbind option_bind].
  rewrite promote_size_t_rank by assumption. cbn [mbind option_bind].
  assert (Hc : common_type tgt (size_t_rank tgt, Unsigned) (size_t_rank tgt, Unsigned)
               = (size_t_rank tgt, Unsigned)).
  { unfold common_type. cbn [fst snd]. rewrite rank_max_idem. reflexivity. }
  rewrite Hc.
  assert (Hw : wrap tgt (size_t_rank tgt, Unsigned) 0 = 0).
  { unfold wrap. cbn [fst snd]. apply Zmod_0_l. }
  rewrite Hw. reflexivity.
Qed.

(** ** ZN_ARRAY_LENGTH *)

Lemma typeof_first_element tgt Γ a :
  typeof tgt Γ (Eindex a (Eint 0)) =
  t ← typeof tgt Γ a;
  elt ← subscript_type tgt t;
  _ ← sizeof_type tgt elt;
  Some elt.
Proof.
  simpl. destruct (typeof tgt Γ a) as [t|]; reflexivity.
Qed.

(** The expansion evaluates to a function of the static type of the
    argument; the memory is neither read nor changed. *)
Lemma eval_ZN_ARRAY_LENGTH tgt Γ ρ a m :
  eval tgt Γ ρ RV (ZN_ARRAY_LENGTH a) m =
  t ← typeof tgt Γ a;
  v ← array_length_of_type tgt t;
  Some (v, m).
Proof.
  unfold ZN_ARRAY_LENGTH.
  cbn [eval prvalue]. unfold bind at 1 2.
  unfold bind at 1, lift at 1.
  destruct (typeof tgt Γ a) as [t|] eqn:Ht; [|reflexivity].
  unfold array_length_of_type.
  cbn [mbind option_bind].
  unfold bind at 1, lift at 1.
  destruct (sizeof_type tgt t) as [total|] eqn:Htot; [|reflexivity].
  unfold ret at 1.
  unfold bind at 1 2, lift at 1.
  rewrite typeof_first_element, Ht. cbn [mbind option_bind].
  destruct (subscript_type tgt t) as [elt|]; [|reflexivity].
  cbn [mbind option_bind].
  destruct (sizeof_type tgt elt) as [s|] eqn:Hs; [|reflexivity].
  cbn [mbind option_bind].
  unfold bind, lift, ret. rewrite Hs.
  destruct (sem_div _ _ _); reflexivity.
Qed.

Lemma const_eval_ZN_ARRAY_LENGTH tgt Γ a :
  const_eval tgt Γ (ZN_ARRAY_LENGTH a) =
  t ← typeof tgt Γ a; array_length_of_type tgt t.
Proof.
  unfold ZN_ARRAY_LENGTH. cbn [const_eval].
  rewrite typeof_first_element.
  destruct (typeof tgt Γ a) as [t|]; [|reflexivity].
  cbn [mbind option_bind]. unfold array_length_of_type.
  destruct (sizeof_type tgt t) as [total|]; cbn [mbind option_bind];
    [|reflexivity].
  destruct (subscript_type tgt t) as [elt|]; [|reflexivity].
  cbn [mbind option_bind].
  destruct (sizeof_type tgt elt) as [s|] eqn:Hs; cbn [mbind option_bind];
    [rewrite Hs|]; reflexivity.
Qed.

Lemma typeof_Esizeof tgt Γ e :
  typeof tgt Γ (Esizeof e) =
  t ← typeof tgt Γ e; _ ← sizeof_type tgt t; Some (Tsize_t tgt).
Proof. reflexivity. Qed.

Lemma typeof_Ediv tgt Γ e1 e2 :
  typeof tgt Γ (Ediv e1 e2) =
  t1 ← typeof tgt Γ e1;
  t2 ← typeof tgt Γ e2;
  p1 ← promoted_type tgt t1;
  p2 ← promoted_type tgt t2;
  Some (Tinteger (common_type tgt p1 p2).1 (common_type tgt p1 p2).2).
Proof. reflexivity. Qed.

Lemma typeof_ZN_ARRAY_LENGTH_subscript tgt Γ a t elt total s :
  rank_index IInt <= rank_index (size_t_rank tgt) ->
  typeof tgt Γ a = Some t ->
  subscript_type tgt t = Some elt ->
  sizeof_type tgt t = Some total ->
  sizeof_type tgt elt = Some s ->
  typeof tgt Γ (ZN_ARRAY_LENGTH a) = Some (Tsize_t tgt).
Proof.
  intros Hr Ht Hd Htot Hs.
  unfold ZN_ARRAY_LENGTH.
  rewrite typeof_Ediv, !typeof_Esizeof, typeof_first_element, Ht.
  cbn [mbind option_bind].
  rewrite Htot, Hd. cbn [mbind option_bind].
  rewrite Hs. cbn [mbind option_bind]. rewrite Hs.
  cbn [mbind option_bind]. unfold Tsize_t. cbn [promoted_type mbind option_bind].
  rewrite promote_size_t_rank by assumption.
  unfold common_type. cbn [fst snd]. rewrite rank_max_idem. reflexivity.
Qed.

Lemma subscript_type_decay tgt t elt :
  decay t = Tpointer elt -> subscript_type tgt t = Some elt.
Proof. intros H. unfold subscript_type. rewrite H. reflexivity. Qed.

Lemma typeof_ZN_ARRAY_LENGTH tgt Γ a t elt total s :
  wf_target tgt ->
  typeof tgt Γ a = Some t ->
  decay t = Tpointer elt ->
  sizeof_type tgt t = Some total ->
  sizeof_type tgt elt = Some s ->
  typeof tgt Γ (ZN_ARRAY_LENGTH a) = Some (Tsize_t tgt).
Proof.
  intros Hwf Ht Hd Htot Hs.
  eapply typeof_ZN_ARRAY_LENGTH_subscript; eauto using subscript_type_decay.
  apply (wf_size_t _ Hwf).
Qed.

(** On an array of [N] elements the quotient of the byte sizes is [N]. *)
Lemma array_length_of_array tgt T N s :
  wf_target tgt ->
  1 <= N ->
  sizeof_type tgt T = Some s ->
  N * s <= max_object_size tgt ->
  array_length_of_type tgt (Tarray T N) = Some (Vint (size_t_rank tgt) Unsigned N).
Proof.
  intros Hwf HN Hs Hfit.
  unfold array_length_of_type.
  rewrite (sizeof_array _ _ _ _ Hs HN Hfit).
  change (subscript_type tgt (Tarray T N)) with (Some T).
  cbn [mbind option_bind]. rewrite Hs. cbn [mbind option_bind].
  pose proof (sizeof_type_bounds _ _ _ Hwf Hs) as Hb.
  pose proof (wf_max_object _ Hwf) as Hmax.
  rewrite sem_div_size_t by (assumption || nia).
  rewrite Z.div_mul by lia. reflexivity.
Qed.

(** On a pointer it is the size of a pointer over the size of the pointee. *)
Lemma array_length_of_pointer tgt T s :
  wf_target tgt ->
  sizeof_type tgt T = Some s ->
  array_length_of_type tgt (Tpointer T)
  = Some (Vint (size_t_rank tgt) Unsigned (sizeof_pointer tgt / s)).
Proof.
  intros Hwf Hs.
  unfold array_length_of_type.
  change (subscript_type tgt (Tpointer T)) with (Some T).
  cbn [sizeof_type mbind option_bind]. rewrite Hs.
  cbn [mbind option_bind].
  pose proof (sizeof_type_bounds _ _ _ Hwf Hs) as Hb.
  pose proof (wf_pointer _ Hwf) as Hp.
  pose proof (wf_max_object _ Hwf) as Hmax.
  rewrite sem_div_size_t by (assumption || lia). reflexivity.
Qed.

(** Whenever the quotient is formed it has a value exactly when the
    divisor is not zero. *)
Lemma array_length_of_type_value tgt t elt total s :
  gnu_target tgt ->
  subscript_type tgt t = Some elt ->
  sizeof_type tgt t = Some total ->
  sizeof_type tgt elt = Some s ->
  0 <= s /\
  (s <> 0 ->
   array_length_of_type tgt t = Some (Vint (size_t_rank tgt) Unsigned (total / s))) /\
  (s = 0 -> array_length_of_type tgt t = None).
Proof.
  intros Hg Hd Htot Hs.
  pose proof (sizeof_type_nonneg _ _ _ Hg Hs) as Hb.
  pose proof (sizeof_type_nonneg _ _ _ Hg Htot) as Hbt.
  pose proof (gnu_max_object _ Hg) as Hmax.
  pose proof (gnu_size_t _ Hg) as Hr.
  split; [lia|].
  unfold array_length_of_type. rewrite Hd, Htot. cbn [mbind option_bind].
  rewrite Hs. cbn [mbind option_bind].
  split.
  - intros Hnz. apply sem_div_size_t_rank; (assumption || lia).
  - intros ->. apply sem_div_size_t_zero. assumption.
Qed.

(** A constant expression has its constant value in every memory, and
    evaluating it changes nothing. *)
Lemma const_eval_sound tgt Γ ρ e v :
  const_eval tgt Γ e = Some v ->
  forall m, eval tgt Γ ρ RV e m = Some (v, m).
Proof.
  revert v.
  induction e as [b|n|x|a IHa i IHi|e IH|e IH|e1 IH1 e2 IH2|e1 IH1 e2 IH2|e IH|e IH c IHc];
    intros v Hv m; cbn [const_eval] in Hv; try discriminate.
  - injection Hv as <-. reflexivity.
  - injection Hv as <-. reflexivity.
  - destruct (const_eval tgt Γ e) as [v1|]; [|discriminate].
    injection Hv as <-. cbn [eval prvalue]. unfold bind.
    rewrite (IH v1 eq_refl). reflexivity.
  - destruct (const_eval tgt Γ e1) as [v1|]; [|discriminate].
    destruct (const_eval tgt Γ e2) as [v2|]; [|discriminate].
    cbn [mbind option_bind] in Hv.
    cbn [eval prvalue]. unfold bind.
    rewrite (IH1 v1 eq_refl), (IH2 v2 eq_refl). unfold lift. rewrite Hv. reflexivity.
  - destruct (const_eval tgt Γ e1) as [v1|]; [|discriminate].
    destruct (const_eval tgt Γ e2) as [v2|]; [|discriminate].
    cbn [mbind option_bind] in Hv.
    cbn [eval prvalue]. unfold bind.
    rewrite (IH1 v1 eq_refl), (IH2 v2 eq_refl). unfold lift. rewrite Hv. reflexivity.
  - cbn [eval prvalue]. unfold bind, lift, ret.
    destruct (typeof tgt Γ e) as [t|]; [|discriminate].
    cbn [mbind option_bind] in Hv.
    destruct (sizeof_type tgt t) as [s|]; [|discriminate].
    injection Hv as <-. reflexivity.
  - destruct (const_eval tgt Γ e) as [v1|]; [|discriminate].
    destruct (const_eval tgt Γ c) as [v2|]; [|discriminate].
    cbn [mbind option_bind] in Hv.
    cbn [eval prvalue]. unfold bind.
    rewrite (IH v1 eq_refl), (IHc v2 eq_refl). unfold lift. rewrite Hv. reflexivity.
Qed.

(** ** The two targets are well formed *)

Lemma gcc_x86_64_wf : wf_target gcc_x86_64.
Proof.
  constructor.
  - apply Z.leb_le. reflexivity.
  - reflexivity.
  - split; apply Z.leb_le; reflexivity.
  - intros []; split; apply Z.leb_le; reflexivity.
  - intros []; split; apply Z.leb_le; reflexivity.
  - split; apply Z.leb_le; reflexivity.
  - intros c s. simpl.
    destruct (String.eqb c "Vector3i"); [intros [= <-]|];
      [|destruct (String.eqb c "std::vector<int>"); intros [= <-]];
      split; apply Z.leb_le; reflexivity.
  - apply Z.leb_le. reflexivity.
  - apply Z.leb_le. reflexivity.
Qed.

Lemma msvc_x64_wf : wf_target msvc_x64.
Proof.
  constructor.
  - apply Z.leb_le. reflexivity.
  - reflexivity.
  - split; apply Z.leb_le; reflexivity.
  - intros []; split; apply Z.leb_le; reflexivity.
  - intros []; split; apply Z.leb_le; reflexivity.
  - split; apply Z.leb_le; reflexivity.
  - intros c s. simpl.
    destruct (String.eqb c "Vector3i"); [intros [= <-]|];
      [|destruct (String.eqb c "std::vector<int>"); intros [= <-]];
      split; apply Z.leb_le; reflexivity.
  - apply Z.leb_le. reflexivity.
  - apply Z.leb_le. reflexivity.
Qed.

(** ** Claims about ZN_ARRAY_LENGTH *)

(** C1.  For an array [a] of [N >= 1] elements of any complete element
    type, [ZN_ARRAY_LENGTH(a)] evaluates to exactly [N], in every memory
    and without changing it. *)
Theorem ZN_ARRAY_LENGTH_array tgt Γ ρ a T N s :
  wf_target tgt ->
  typeof tgt Γ a = Some (Tarray T N) ->
  1 <= N ->
  sizeof_type tgt T = Some s ->
  N * s <= max_object_size tgt ->
  forall m,
    eval tgt Γ ρ RV (ZN_ARRAY_LENGTH a) m
    = Some (Vint (size_t_rank tgt) Unsigned N, m).
Proof.
  intros Hwf Ha HN Hs Hfit m.
  rewrite eval_ZN_ARRAY_LENGTH, Ha. cbn [mbind option_bind].
  rewrite (array_length_of_array _ _ _ _ Hwf HN Hs Hfit). reflexivity.
Qed.

(** C1 at [int a[1024]] (GCC, x86-64) and at [Vector3i one[1]] (MSVC, x64). *)
Lemma ZN_ARRAY_LENGTH_array_witness :
  (wf_target gcc_x86_64 /\
   typeof gcc_x86_64 sample_scope (Evar "a") = Some (Tarray Tint 1024) /\
   eval gcc_x86_64 sample_scope sample_addresses RV
     (ZN_ARRAY_LENGTH (Evar "a")) sample_memory
   = Some (Vint ILong Unsigned 1024, sample_memory))
  /\
  (wf_target msvc_x64 /\
   typeof msvc_x64 sample_scope (Evar "one") = Some (Tarray (Tclass "Vector3i") 1) /\
   eval msvc_x64 sample_scope sample_addresses RV
     (ZN_ARRAY_LENGTH (Evar "one")) ∅
   = Some (Vint ILongLong Unsigned 1, ∅)).
Proof.
  split; (split; [|split]).
  - exact gcc_x86_64_wf.
  - reflexivity.
  - apply (ZN_ARRAY_LENGTH_array gcc_x86_64 sample_scope sample_addresses
             (Evar "a") Tint 1024 4 gcc_x86_64_wf).
    + reflexivity.
    + lia.
    + reflexivity.
    + apply Z.leb_le. reflexivity.
  - exact msvc_x64_wf.
  - reflexivity.
  - apply (ZN_ARRAY_LENGTH_array msvc_x64 sample_scope sample_addresses
             (Evar "one") (Tclass "Vector3i") 1 12 msvc_x64_wf).
    + reflexivity.
    + lia.
    + reflexivity.
    + apply Z.leb_le. reflexivity.
Defined.

(** C3.  When the argument is a pointer, as a parameter declared
    [T p[N]] is, the expansion is well formed and evaluates, in every
    memory, to the byte size of a pointer divided by the byte size of [T],
    whatever [N] was; and there is a length [N >= 1] from which this value
    differs. *)
Theorem ZN_ARRAY_LENGTH_pointer tgt T s :
  wf_target tgt ->
  sizeof_type tgt T = Some s ->
  (forall N Γ ρ p,
     typeof tgt Γ p = Some (adjust_parameter (Tarray T N)) ->
     typeof tgt Γ (ZN_ARRAY_LENGTH p) = Some (Tsize_t tgt) /\
     forall m,
       eval tgt Γ ρ RV (ZN_ARRAY_LENGTH p) m
       = Some (Vint (size_t_rank tgt) Unsigned (sizeof_pointer tgt / s), m))
  /\
  (exists N,
     1 <= N /\
     forall Γ ρ p m,
       typeof tgt Γ p = Some (adjust_parameter (Tarray T N)) ->
       exists r,
         eval tgt Γ ρ RV (ZN_ARRAY_LENGTH p) m
         = Some (Vint (size_t_rank tgt) Unsigned r, m) /\
         r = sizeof_pointer tgt / s /\ r <> N).
Proof.
  intros Hwf Hs.
  assert (Hgen : forall N Γ ρ p,
     typeof tgt Γ p = Some (adjust_parameter (Tarray T N)) ->
     typeof tgt Γ (ZN_ARRAY_LENGTH p) = Some (Tsize_t tgt) /\
     forall m,
       eval tgt Γ ρ RV (ZN_ARRAY_LENGTH p) m
       = Some (Vint (size_t_rank tgt) Unsigned (sizeof_pointer tgt / s), m)).
  { intros N Γ ρ p Hp. cbn [adjust_parameter decay] in Hp. split.
    - eapply typeof_ZN_ARRAY_LENGTH; eauto; reflexivity.
    - intros m. rewrite eval_ZN_ARRAY_LENGTH, Hp. cbn [mbind option_bind].
      rewrite (array_length_of_pointer _ _ _ Hwf Hs). reflexivity. }
  split; [exact Hgen|].
  exists (sizeof_pointer tgt / s + 1). split.
  - pose proof (sizeof_type_bounds _ _ _ Hwf Hs).
    pose proof (wf_pointer _ Hwf).
    assert (0 <= sizeof_pointer tgt / s) by (apply Z.div_pos; lia). lia.
  - intros Γ ρ p m Hp. exists (sizeof_pointer tgt / s).
    destruct (Hgen _ _ ρ _ Hp) as [_ He]. rewrite He.
    repeat split. lia.
Qed.

(** C3 at a parameter declared [int param[1024]]: the macro gives 2. *)
Lemma ZN_ARRAY_LENGTH_pointer_witness :
  wf_target gcc_x86_64 /\
  sizeof_type gcc_x86_64 Tint = Some 4 /\
  typeof gcc_x86_64 sample_scope (Evar "param") = Some (Tpointer Tint) /\
  eval gcc_x86_64 sample_scope sample_addresses RV
    (ZN_ARRAY_LENGTH (Evar "param")) sample_memory
  = Some (Vint ILong Unsigned 2, sample_memory).
Proof.
  split; [exact gcc_x86_64_wf|].
  split; [reflexivity|].
  split; [reflexivity|].
  exact (proj2 (proj1 (ZN_ARRAY_LENGTH_pointer gcc_x86_64 Tint 4
                         gcc_x86_64_wf eq_refl)
                  1024 sample_scope sample_addresses (Evar "param") eq_refl)
           sample_memory).
Defined.

(** *** The expansion as it is parsed *)

Lemma paste_index_postfix e i :
  paste_index e i = Eindex e i <-> is_postfix e = true.
Proof.
  destruct e as [b|n|y|a j|e|e|e1 e2|e1 e2|e|e c]; cbn [paste_index is_postfix];
    split; (reflexivity || discriminate).
Qed.

Lemma typeof_Enot_bool tgt Γ e t : typeof tgt Γ (Enot e) = Some t -> t = Tbool.
Proof.
  cbn [typeof]. destruct (typeof tgt Γ e) as [t1|]; [|discriminate].
  cbn [mbind option_bind]. destruct (is_scalar (decay t1)); congruence.
Qed.

Lemma typeof_Eeq_bool tgt Γ e1 e2 t :
  typeof tgt Γ (Eeq e1 e2) = Some t -> t = Tbool.
Proof.
  cbn [typeof]. destruct (typeof tgt Γ e1) as [t1|]; [|discriminate].
  destruct (typeof tgt Γ e2) as [t2|]; [|discriminate].
  cbn [mbind option_bind]. intros H.
  repeat case_match; simplify_eq; try reflexivity;
    repeat match goal with
           | H : mbind _ _ = Some _ |- _ => apply bind_Some in H; destruct H as (? & _ & H)
           end;
    congruence.
Qed.

Lemma typeof_Ediv_integer tgt Γ e1 e2 t :
  typeof tgt Γ (Ediv e1 e2) = Some t -> exists r s, t = Tinteger r s.
Proof.
  rewrite typeof_Ediv. intros H.
  repeat (apply bind_Some in H; destruct H as (? & _ & H)).
  injection H as <-. eauto.
Qed.

Lemma typeof_Esizeof_size_t tgt Γ e t :
  typeof tgt Γ (Esizeof e) = Some t -> t = Tsize_t tgt.
Proof.
  rewrite typeof_Esizeof. intros H.
  repeat (apply bind_Some in H; destruct H as (? & _ & H)).
  congruence.
Qed.

(** In the fragment an expression that can be subscripted (an array, a
    pointer, an object of a class with [operator[]]) is a primary or a
    postfix expression. *)
Lemma subscript_is_postfix tgt Γ a t :
  typeof tgt Γ a = Some t -> is_Some (subscript_type tgt t) -> is_postfix a = true.
Proof.
  intros Ht [elt Hs].
  destruct a as [b|n|y|a j|e|e|e1 e2|e1 e2|e|e c]; try reflexivity; exfalso.
  - apply typeof_Enot_bool in Ht. subst t. discriminate Hs.
  - apply typeof_Eeq_bool in Ht. subst t. discriminate Hs.
  - apply typeof_Ediv_integer in Ht. destruct Ht as (r & s & ->). discriminate Hs.
  - apply typeof_Esizeof_size_t in Ht. subst t. discriminate Hs.
Qed.

(** Wherever the tree of the macro body with the argument in place of
    the parameter is well formed, it is the expansion as it is parsed. *)
Lemma ZN_ARRAY_LENGTH_parsed_tree tgt Γ a ty :
  typeof tgt Γ (ZN_ARRAY_LENGTH a) = Some ty ->
  ZN_ARRAY_LENGTH_parsed a = ZN_ARRAY_LENGTH a.
Proof.
  unfold ZN_ARRAY_LENGTH, ZN_ARRAY_LENGTH_parsed.
  rewrite typeof_Ediv, !typeof_Esizeof, typeof_first_element.
  destruct (typeof tgt Γ a) as [t|] eqn:Ht; [|discriminate].
  cbn [mbind option_bind].
  destruct (sizeof_type tgt t) as [total|]; [|discriminate].
  cbn [mbind option_bind].
  destruct (subscript_type tgt t) as [elt|] eqn:Hd; [|discriminate].
  intros _.
  assert (Hp : is_postfix a = true) by (eapply subscript_is_postfix; eauto).
  rewrite (proj2 (paste_index_postfix a (Eint 0)) Hp). reflexivity.
Qed.

(** A quotient of two [sizeof] is well formed exactly when both operands
    have a type of a known size. *)
Lemma typeof_sizeof_quotient_inv tgt Γ x y ty :
  typeof tgt Γ (Ediv (Esizeof x) (Esizeof y)) = Some ty ->
  exists tx total u d,
    typeof tgt Γ x = Some tx /\ sizeof_type tgt tx = Some total /\
    typeof tgt Γ y = Some u /\ sizeof_type tgt u = Some d.
Proof.
  rewrite typeof_Ediv, !typeof_Esizeof.
  destruct (typeof tgt Γ x) as [tx|]; [|discriminate].
  cbn [mbind option_bind].
  destruct (sizeof_type tgt tx) as [total|] eqn:Htot; [|discriminate].
  cbn [mbind option_bind].
  destruct (typeof tgt Γ y) as [u|]; [|discriminate].
  cbn [mbind option_bind].
  destruct (sizeof_type tgt u) as [d|] eqn:Hd; [|discriminate].
  intros _. exists tx, total, u, d. repeat split; assumption.
Qed.

Lemma typeof_sizeof_quotient tgt Γ x y tx total u d :
  rank_index IInt <= rank_index (size_t_rank tgt) ->
  typeof tgt Γ x = Some tx -> sizeof_type tgt tx = Some total ->
  typeof tgt Γ y = Some u -> sizeof_type tgt u = Some d ->
  typeof tgt Γ (Ediv (Esizeof x) (Esizeof y)) = Some (Tsize_t tgt).
Proof.
  intros Hr Hx Htot Hy Hd.
  rewrite typeof_Ediv, !typeof_Esizeof, Hx, Hy. cbn [mbind option_bind].
  rewrite Htot, Hd. cbn [mbind option_bind].
  unfold Tsize_t. cbn [promoted_type mbind option_bind].
  rewrite promote_size_t_rank by assumption.
  unfold common_type. cbn [fst snd]. rewrite rank_max_idem. reflexivity.
Qed.

(** It evaluates to the quotient of the two sizes, and the memory is
    neither read nor changed. *)
Lemma eval_sizeof_quotient tgt Γ ρ x y tx total u d m :
  typeof tgt Γ x = Some tx -> sizeof_type tgt tx = Some total ->
  typeof tgt Γ y = Some u -> sizeof_type tgt u = Some d ->
  eval tgt Γ ρ RV (Ediv (Esizeof x) (Esizeof y)) m =
  v ← sem_div tgt (Vint (size_t_rank tgt) Unsigned total)
        (Vint (size_t_rank tgt) Unsigned d);
  Some (v, m).
Proof.
  intros Hx Htot Hy Hd.
  cbn [eval prvalue]. unfold bind, lift, ret.
  rewrite Hx, Htot, Hy, Hd.
  destruct (sem_div _ _ _); reflexivity.
Qed.

Lemma const_eval_Esizeof tgt Γ e t s :
  typeof tgt Γ e = Some t -> sizeof_type tgt t = Some s ->
  const_eval tgt Γ (Esizeof e) = Some (Vint (size_t_rank tgt) Unsigned s).
Proof.
  intros Ht Hs. cbn [const_eval]. rewrite Ht. cbn [mbind option_bind].
  rewrite Hs. reflexivity.
Qed.

Lemma gcc_x86_64_flex_gnu : gnu_target gcc_x86_64_flex.
Proof.
  constructor.
  - split; apply Z.leb_le; reflexivity.
  - intros []; split; apply Z.leb_le; reflexivity.
  - intros []; split; apply Z.leb_le; reflexivity.
  - split; apply Z.leb_le; reflexivity.
  - intros c s. simpl.
    destruct (String.eqb c "Flex"); [intros [= <-]|];
      [|destruct (String.eqb c "Vector3i"); [intros [= <-]|];
        [|destruct (String.eqb c "std::vector<int>"); intros [= <-]]];
      split; apply Z.leb_le; reflexivity.
  - apply Z.leb_le. reflexivity.
  - apply Z.leb_le. reflexivity.
Qed.

(** C7, as stated, fails where an element has size zero: with
    [struct Flex { int tail[0]; }; Flex flex[4];], which g++ accepts,
    [ZN_ARRAY_LENGTH(flex)] is well formed, its divisor [sizeof(flex[0])]
    is 0, and its evaluation has no value. *)
Lemma ZN_ARRAY_LENGTH_zero_size_divisor :
  gnu_target gcc_x86_64_flex /\
  typeof gcc_x86_64_flex class_scope (Evar "flex") = Some (Tarray (Tclass "Flex") 4) /\
  typeof gcc_x86_64_flex class_scope (ZN_ARRAY_LENGTH (Evar "flex"))
  = Some (Tsize_t gcc_x86_64_flex) /\
  const_eval gcc_x86_64_flex class_scope (Esizeof (Eindex (Evar "flex") (Eint 0)))
  = Some (Vint ILong Unsigned 0) /\
  const_eval gcc_x86_64_flex class_scope (ZN_ARRAY_LENGTH (Evar "flex")) = None /\
  eval gcc_x86_64_flex class_scope sample_addresses RV
    (ZN_ARRAY_LENGTH (Evar "flex")) sample_memory
  = None.
Proof.
  split; [exact gcc_x86_64_flex_gnu|].
  repeat split; reflexivity.
Qed.

(** C7, amended.  Whenever [ZN_ARRAY_LENGTH(a)] is well formed, for any
    argument (an array, a pointer, an object of a class with
    [operator[]], or an expression whose tokens re-associate with
    [[0]]), it has type [size_t] and it has a value, in every memory and
    without changing it, exactly when the divisor [sizeof(a[0])] is not
    zero, the value being [sizeof(a)] over the divisor; with a divisor
    of zero there is no value.  Where every complete object type has a
    size of at least 1, as the standard guarantees, the divisor is at
    least 1.  For an argument that can be subscripted the expansion is
    the tree [ZN_ARRAY_LENGTH a]. *)
Theorem ZN_ARRAY_LENGTH_value_iff_divisor tgt Γ a ty :
  gnu_target tgt ->
  typeof tgt Γ (ZN_ARRAY_LENGTH_parsed a) = Some ty ->
  exists d total,
    ty = Tsize_t tgt /\
    const_eval tgt Γ (Esizeof (paste_index a (Eint 0)))
    = Some (Vint (size_t_rank tgt) Unsigned d) /\
    const_eval tgt Γ (Esizeof a) = Some (Vint (size_t_rank tgt) Unsigned total) /\
    0 <= d /\
    (d <> 0 ->
     forall ρ m,
       eval tgt Γ ρ RV (ZN_ARRAY_LENGTH_parsed a) m
       = Some (Vint (size_t_rank tgt) Unsigned (total / d), m)) /\
    (d = 0 ->
     forall ρ m, eval tgt Γ ρ RV (ZN_ARRAY_LENGTH_parsed a) m = None) /\
    (wf_target tgt -> 1 <= d) /\
    (forall t,
       typeof tgt Γ a = Some t -> is_Some (subscript_type tgt t) ->
       ZN_ARRAY_LENGTH_parsed a = ZN_ARRAY_LENGTH a).
Proof.
  intros Hg Hty. unfold ZN_ARRAY_LENGTH_parsed in *.
  destruct (typeof_sizeof_quotient_inv _ _ _ _ _ Hty)
    as (tx & total & u & d & Hx & Htot & Hu & Hd).
  pose proof (sizeof_type_nonneg _ _ _ Hg Hd) as Hb.
  pose proof (sizeof_type_nonneg _ _ _ Hg Htot) as Hbt.
  pose proof (gnu_max_object _ Hg) as Hmax.
  pose proof (gnu_size_t _ Hg) as Hr.
  exists d, total.
  split.
  { rewrite (typeof_sizeof_quotient _ _ _ _ _ _ _ _ Hr Hx Htot Hu Hd) in Hty.
    congruence. }
  split; [exact (const_eval_Esizeof _ _ _ _ _ Hu Hd)|].
  split; [exact (const_eval_Esizeof _ _ _ _ _ Hx Htot)|].
  split; [lia|].
  split; [|split; [|split]].
  - intros Hnz ρ m.
    rewrite (eval_sizeof_quotient _ _ _ _ _ _ _ _ _ _ Hx Htot Hu Hd).
    rewrite sem_div_size_t_rank by (assumption || lia). reflexivity.
  - intros -> ρ m.
    rewrite (eval_sizeof_quotient _ _ _ _ _ _ _ _ _ _ Hx Htot Hu Hd).
    rewrite sem_div_size_t_zero by assumption. reflexivity.
  - intros Hwf. pose proof (sizeof_type_bounds _ _ _ Hwf Hd). lia.
  - intros t Ht Hsub. unfold ZN_ARRAY_LENGTH.
    assert (Hp : is_postfix a = true) by (eapply subscript_is_postfix; eauto).
    rewrite (proj2 (paste_index_postfix a (Eint 0)) Hp). reflexivity.
Qed.

(** C7 amended, at the class object [std::vector<int> vec] (24 bytes over
    4: the macro gives 6), at [!a] for the array [int a[1024]], where the
    expansion is [sizeof(!a) / sizeof(!a[0])] (1 over 1), and at
    [Flex flex[4]] (divisor zero). *)
Lemma ZN_ARRAY_LENGTH_value_iff_divisor_witness :
  (gnu_target gcc_x86_64 /\
   typeof gcc_x86_64 class_scope (ZN_ARRAY_LENGTH (Evar "vec"))
   = Some (Tsize_t gcc_x86_64) /\
   eval gcc_x86_64 class_scope sample_addresses RV
     (ZN_ARRAY_LENGTH (Evar "vec")) sample_memory
   = Some (Vint ILong Unsigned 6, sample_memory) /\
   exists d total,
     Tsize_t gcc_x86_64 = Tsize_t gcc_x86_64 /\
     const_eval gcc_x86_64 class_scope (Esizeof (Eindex (Evar "vec") (Eint 0)))
     = Some (Vint ILong Unsigned d) /\
     const_eval gcc_x86_64 class_scope (Esizeof (Evar "vec"))
     = Some (Vint ILong Unsigned total) /\
     0 <= d /\
     (d <> 0 ->
      forall ρ m,
        eval gcc_x86_64 class_scope ρ RV (ZN_ARRAY_LENGTH (Evar "vec")) m
        = Some (Vint ILong Unsigned (total / d), m)) /\
     (d = 0 ->
      forall ρ m,
        eval gcc_x86_64 class_scope ρ RV (ZN_ARRAY_LENGTH (Evar "vec")) m = None) /\
     (wf_target gcc_x86_64 -> 1 <= d) /\
     (forall t,
        typeof gcc_x86_64 class_scope (Evar "vec") = Some t ->
        is_Some (subscript_type gcc_x86_64 t) ->
        ZN_ARRAY_LENGTH_parsed (Evar "vec") = ZN_ARRAY_LENGTH (Evar "vec")))
  /\
  (ZN_ARRAY_LENGTH_parsed (Enot (Evar "a"))
   = Ediv (Esizeof (Enot (Evar "a")))
       (Esizeof (Enot (Eindex (Evar "a") (Eint 0)))) /\
   typeof gcc_x86_64 sample_scope (ZN_ARRAY_LENGTH (Enot (Evar "a"))) = None /\
   eval gcc_x86_64 sample_scope sample_addresses RV
     (ZN_ARRAY_LENGTH_parsed (Enot (Evar "a"))) sample_memory
   = Some (Vint ILong Unsigned 1, sample_memory) /\
   exists d total,
     const_eval gcc_x86_64 sample_scope
       (Esizeof (Enot (Eindex (Evar "a") (Eint 0))))
     = Some (Vint ILong Unsigned d) /\
     const_eval gcc_x86_64 sample_scope (Esizeof (Enot (Evar "a")))
     = Some (Vint ILong Unsigned total) /\
     (d <> 0 ->
      forall ρ m,
        eval gcc_x86_64 sample_scope ρ RV
          (ZN_ARRAY_LENGTH_parsed (Enot (Evar "a"))) m
        = Some (Vint ILong Unsigned (total / d), m)))
  /\
  (gnu_target gcc_x86_64_flex /\
   typeof gcc_x86_64_flex class_scope (ZN_ARRAY_LENGTH_parsed (Evar "flex"))
   = Some (Tsize_t gcc_x86_64_flex) /\
   exists d total,
     const_eval gcc_x86_64_flex class_scope (Esizeof (Eindex (Evar "flex") (Eint 0)))
     = Some (Vint ILong Unsigned d) /\
     const_eval gcc_x86_64_flex class_scope (Esizeof (Evar "flex"))
     = Some (Vint ILong Unsigned total) /\
     (d = 0 ->
      forall ρ m,
        eval gcc_x86_64_flex class_scope ρ RV (ZN_ARRAY_LENGTH (Evar "flex")) m
        = None)).
Proof.
  split; [|split].
  - split; [exact (wf_target_gnu _ gcc_x86_64_wf)|].
    split; [reflexivity|].
    split; [reflexivity|].
    exact (ZN_ARRAY_LENGTH_value_iff_divisor gcc_x86_64 class_scope (Evar "vec")
             (Tsize_t gcc_x86_64) (wf_target_gnu _ gcc_x86_64_wf) eq_refl).
  - split; [reflexivity|].
    split; [reflexivity|].
    split; [reflexivity|].
    destruct (ZN_ARRAY_LENGTH_value_iff_divisor gcc_x86_64 sample_scope
                (Enot (Evar "a")) (Tsize_t gcc_x86_64)
                (wf_target_gnu _ gcc_x86_64_wf) eq_refl)
      as (d & total & _ & Hd & Htot & _ & Hval & _).
    exists d, total. exact (conj Hd (conj Htot Hval)).
  - split; [exact gcc_x86_64_flex_gnu|].
    split; [reflexivity|].
    destruct (ZN_ARRAY_LENGTH_value_iff_divisor gcc_x86_64_flex class_scope
                (Evar "flex") (Tsize_t gcc_x86_64_flex) gcc_x86_64_flex_gnu eq_refl)
      as (d & total & _ & Hd & Htot & _ & _ & Hzero & _).
    exists d, total. exact (conj Hd (conj Htot Hzero)).
Defined.

(** C8.  The value of [ZN_ARRAY_LENGTH] is a function of the static type
    of its argument: two arrays of one type give one value, whatever the
    scopes, addresses and memories they live in, and evaluating the
    expansion leaves the memory as it was, so the argument is not
    evaluated. *)
Theorem ZN_ARRAY_LENGTH_static tgt T N total Γa a Γb b :
  wf_target tgt ->
  sizeof_type tgt (Tarray T N) = Some total ->
  typeof tgt Γa a = Some (Tarray T N) ->
  typeof tgt Γb b = Some (Tarray T N) ->
  exists v,
    (forall ρ m, eval tgt Γa ρ RV (ZN_ARRAY_LENGTH a) m = Some (v, m)) /\
    (forall ρ m, eval tgt Γb ρ RV (ZN_ARRAY_LENGTH b) m = Some (v, m)).
Proof.
  intros Hwf Htot Ha Hb.
  destruct (sizeof_array_inv _ _ _ _ Htot) as (s & Hs & HN & Hfit & _).
  exists (Vint (size_t_rank tgt) Unsigned N).
  split; intros ρ m; rewrite eval_ZN_ARRAY_LENGTH.
  - rewrite Ha. cbn [mbind option_bind].
    rewrite (array_length_of_array _ _ _ _ Hwf HN Hs Hfit). reflexivity.
  - rewrite Hb. cbn [mbind option_bind].
    rewrite (array_length_of_array _ _ _ _ Hwf HN Hs Hfit). reflexivity.
Qed.

(** C8 at the rows [grid[i++]] and [rows[0]], both [float[3]]: evaluating
    [grid[i++]] itself stores 3 into [i], evaluating the macro on it
    stores nothing. *)
Lemma ZN_ARRAY_LENGTH_static_witness :
  wf_target gcc_x86_64 /\
  typeof gcc_x86_64 sample_scope (Eindex (Evar "grid") (Epostinc (Evar "i")))
  = Some (Tarray (Tfloating FFloat) 3) /\
  typeof gcc_x86_64 sample_scope (Eindex (Evar "rows") (Eint 0))
  = Some (Tarray (Tfloating FFloat) 3) /\
  eval gcc_x86_64 sample_scope sample_addresses RV
    (Eindex (Evar "grid") (Epostinc (Evar "i"))) sample_memory
  = Some (Vptr 8232, <[8336 := Vint IInt Signed 3]> sample_memory) /\
  exists v,
    (forall ρ m,
       eval gcc_x86_64 sample_scope ρ RV
         (ZN_ARRAY_LENGTH (Eindex (Evar "grid") (Epostinc (Evar "i")))) m
       = Some (v, m)) /\
    (forall ρ m,
       eval gcc_x86_64 sample_scope ρ RV
         (ZN_ARRAY_LENGTH (Eindex (Evar "rows") (Eint 0))) m
       = Some (v, m)).
Proof.
  split; [exact gcc_x86_64_wf|].
  split; [reflexivity|].
  split; [reflexivity|].
  split; [reflexivity|].
  exact (ZN_ARRAY_LENGTH_static gcc_x86_64 (Tfloating FFloat) 3 12
           sample_scope (Eindex (Evar "grid") (Epostinc (Evar "i")))
           sample_scope (Eindex (Evar "rows") (Eint 0))
           gcc_x86_64_wf eq_refl eq_refl eq_refl).
Defined.

(** C10.  On an array, [ZN_ARRAY_LENGTH(a)] has the unsigned type
    [size_t]; it is a constant expression whose value, the same as at run
    time, is not negative and fits [size_t]; and the division is exact. *)
Theorem ZN_ARRAY_LENGTH_constant tgt Γ a T N s :
  wf_target tgt ->
  typeof tgt Γ a = Some (Tarray T N) ->
  1 <= N ->
  sizeof_type tgt T = Some s ->
  N * s <= max_object_size tgt ->
  typeof tgt Γ (ZN_ARRAY_LENGTH a) = Some (Tinteger (size_t_rank tgt) Unsigned) /\
  const_eval tgt Γ (ZN_ARRAY_LENGTH a) = Some (Vint (size_t_rank tgt) Unsigned N) /\
  (forall ρ m,
     eval tgt Γ ρ RV (ZN_ARRAY_LENGTH a) m
     = Some (Vint (size_t_rank tgt) Unsigned N, m)) /\
  in_range tgt (size_t_rank tgt, Unsigned) N = true /\
  0 <= N <= size_max tgt /\
  sizeof_type tgt (Tarray T N) = Some (N * s) /\
  (N * s) mod s = 0 /\
  (N * s) / s = N.
Proof.
  intros Hwf Ha HN Hs Hfit.
  pose proof (sizeof_type_bounds _ _ _ Hwf Hs) as Hb.
  pose proof (wf_max_object _ Hwf) as Hmax.
  pose proof (array_length_of_array _ _ _ _ Hwf HN Hs Hfit) as Hlen.
  pose proof (sizeof_array _ _ _ _ Hs HN Hfit) as Htot.
  assert (HNmax : 0 <= N <= size_max tgt) by nia.
  split.
  { eapply typeof_ZN_ARRAY_LENGTH; eauto; reflexivity. }
  split.
  { rewrite const_eval_ZN_ARRAY_LENGTH, Ha. exact Hlen. }
  split.
  { intros ρ m. rewrite eval_ZN_ARRAY_LENGTH, Ha. cbn [mbind option_bind].
    rewrite Hlen. reflexivity. }
  split.
  { unfold in_range, size_max in *. cbn [fst snd int_min].
    apply andb_true_iff. split; apply Z.leb_le; lia. }
  split; [exact HNmax|].
  split; [exact Htot|].
  split.
  - apply Z.mod_mul. lia.
  - apply Z.div_mul. lia.
Qed.

(** C10 at [int a[1024]]. *)
Lemma ZN_ARRAY_LENGTH_constant_witness :
  wf_target gcc_x86_64 /\
  typeof gcc_x86_64 sample_scope (ZN_ARRAY_LENGTH (Evar "a"))
  = Some (Tinteger ILong Unsigned) /\
  const_eval gcc_x86_64 sample_scope (ZN_ARRAY_LENGTH (Evar "a"))
  = Some (Vint ILong Unsigned 1024).
Proof.
  split; [exact gcc_x86_64_wf|].
  pose proof (ZN_ARRAY_LENGTH_constant gcc_x86_64 sample_scope (Evar "a")
                Tint 1024 4 gcc_x86_64_wf eq_refl) as H.
  destruct H as (Hty & Hc & _).
  - lia.
  - reflexivity.
  - apply Z.leb_le. reflexivity.
  - split; [exact Hty | exact Hc].
Defined.

(** ** ZN_LIKELY and ZN_UNLIKELY *)

(** With [__GNUC__] defined, either macro evaluates its argument once and
    gives the truth value of the result as a [long]; the expected outcome
    [c] plays no part. *)
Lemma eval_builtin_expect_not_not tgt Γ ρ x c m :
  eval tgt Γ ρ RV (Ebuiltin_expect (Enot (Enot x)) (Eint c)) m =
  match eval tgt Γ ρ RV x m with
  | Some (v, m') => Some (Vint ILong Signed (Z.b2z (truth v)), m')
  | None => None
  end.
Proof.
  cbn [eval prvalue]. unfold bind, ret, lift.
  destruct (eval tgt Γ ρ RV x m) as [[v m']|]; [|reflexivity].
  unfold sem_not. cbn [truth to_long]. rewrite negb_involutive. reflexivity.
Qed.

Lemma truth_b2z (b : bool) : truth (Vint ILong Signed (Z.b2z b)) = b.
Proof. destruct b; reflexivity. Qed.

Lemma decision_hint_cond tgt Γ ρ gnuc h c m :
  decision (eval tgt Γ ρ RV (hint_cond gnuc h c) m)
  = decision (eval tgt Γ ρ RV c m).
Proof.
  destruct h, gnuc; try reflexivity;
    unfold hint_cond, ZN_LIKELY, ZN_UNLIKELY;
    rewrite eval_builtin_expect_not_not;
    destruct (eval tgt Γ ρ RV c m) as [[v m']|]; try reflexivity;
    cbn [decision]; rewrite truth_b2z; reflexivity.
Qed.

(** A branch on a condition depends on it through its [decision] only. *)
Lemma branch_decision {A} (c c' : M val) (k1 k2 : M A) m :
  decision (c' m) = decision (c m) ->
  (v <- c';; if truth v then k1 else k2) m
  = (v <- c;; if truth v then k1 else k2) m.
Proof.
  unfold bind. intros H.
  destruct (c' m) as [[v' m1]|], (c m) as [[v m2]|];
    cbn [decision] in H; try discriminate; [|reflexivity].
  injection H as -> ->. reflexivity.
Qed.

Lemma loop_decision (c c' : M val) (body body' : M outcome) fuel :
  (forall m, decision (c' m) = decision (c m)) ->
  (forall m, body' m = body m) ->
  forall m, loop c' body' fuel m = loop c body fuel m.
Proof.
  intros Hc Hb. induction fuel as [|fuel IH]; intros m; [reflexivity|].
  cbn [loop]. unfold bind.
  specialize (Hc m).
  destruct (c' m) as [[v' m1]|], (c m) as [[v m2]|];
    cbn [decision] in Hc; try discriminate; [|reflexivity].
  injection Hc as -> ->.
  destruct (truth v); [|reflexivity].
  rewrite Hb. destruct (body m2) as [[[|r] m3]|]; try reflexivity.
  apply IH.
Qed.

Lemma exec_annotate tgt Γ ρ gnuc h s :
  forall fuel m,
    exec tgt Γ ρ fuel (annotate gnuc h s) m = exec tgt Γ ρ fuel s m.
Proof.
  induction s as [ | e | e | s1 IH1 s2 IH2 | c s1 IH1 s2 IH2 | c body IH ];
    intros fuel m; try reflexivity.
  - cbn [annotate exec]. unfold bind. rewrite IH1.
    destruct (exec tgt Γ ρ fuel s1 m) as [[[|r] m1]|]; try reflexivity.
    apply IH2.
  - cbn [annotate exec].
    rewrite (branch_decision (eval tgt Γ ρ RV c)
               (eval tgt Γ ρ RV (hint_cond gnuc (h c) c)))
      by apply decision_hint_cond.
    unfold bind. destruct (eval tgt Γ ρ RV c m) as [[v m1]|]; [|reflexivity].
    destruct (truth v); [apply IH1 | apply IH2].
  - cbn [annotate exec]. apply loop_decision.
    + intros m'. apply decision_hint_cond.
    + intros m'. apply IH.
Qed.

(** C2.  On a boolean value [b], given by an expression [x] whose
    evaluation yields [b] and changes nothing, [ZN_LIKELY(x) == x] and
    [ZN_UNLIKELY(x) == x] are true, and either macro yields a value whose
    truth value is [b], whether or not [__GNUC__] is defined. *)
Theorem hint_identity_on_bool tgt Γ ρ gnuc x b m :
  eval tgt Γ ρ RV x m = Some (Vbool b, m) ->
  eval tgt Γ ρ RV (Eeq (ZN_LIKELY gnuc x) x) m = Some (Vbool true, m) /\
  eval tgt Γ ρ RV (Eeq (ZN_UNLIKELY gnuc x) x) m = Some (Vbool true, m) /\
  (exists v, eval tgt Γ ρ RV (ZN_LIKELY gnuc x) m = Some (v, m) /\
             sem_eq tgt v (Vbool b) = Some (Vbool true) /\ truth v = b) /\
  (exists v, eval tgt Γ ρ RV (ZN_UNLIKELY gnuc x) m = Some (v, m) /\
             sem_eq tgt v (Vbool b) = Some (Vbool true) /\ truth v = b).
Proof.
  intros Hx.
  assert (Hlong : sem_eq tgt (Vint ILong Signed (Z.b2z b)) (Vbool b)
                  = Some (Vbool true)).
  { unfold sem_eq. cbn [promoted_val mbind option_bind].
    rewrite Z.eqb_refl. reflexivity. }
  assert (Hbool : sem_eq tgt (Vbool b) (Vbool b) = Some (Vbool true)).
  { unfold sem_eq. cbn [promoted_val mbind option_bind].
    rewrite Z.eqb_refl. reflexivity. }
  destruct gnuc; unfold ZN_LIKELY, ZN_UNLIKELY.
  - assert (He : forall c,
        eval tgt Γ ρ RV (Ebuiltin_expect (Enot (Enot x)) (Eint c)) m
        = Some (Vint ILong Signed (Z.b2z b), m)).
    { intros c. rewrite eval_builtin_expect_not_not, Hx. reflexivity. }
    assert (Heq : forall c,
        eval tgt Γ ρ RV (Eeq (Ebuiltin_expect (Enot (Enot x)) (Eint c)) x) m
        = Some (Vbool true, m)).
    { intros c. specialize (He c).
      change (eval tgt Γ ρ RV (Eeq (Ebuiltin_expect (Enot (Enot x)) (Eint c)) x) m)
        with ((v1 <- eval tgt Γ ρ RV (Ebuiltin_expect (Enot (Enot x)) (Eint c));;
               v2 <- eval tgt Γ ρ RV x;; lift (sem_eq tgt v1 v2)) m).
      unfold bind. rewrite He, Hx. unfold lift. rewrite Hlong. reflexivity. }
    split; [apply Heq|]. split; [apply Heq|].
    split; eexists; (split; [apply He|]); (split; [exact Hlong | apply truth_b2z]).
  - assert (Heq : eval tgt Γ ρ RV (Eeq x x) m = Some (Vbool true, m)).
    { change (eval tgt Γ ρ RV (Eeq x x) m)
        with ((v1 <- eval tgt Γ ρ RV x;;
               v2 <- eval tgt Γ ρ RV x;; lift (sem_eq tgt v1 v2)) m).
      unfold bind. rewrite Hx, Hx. unfold lift. rewrite Hbool. reflexivity. }
    split; [exact Heq|]. split; [exact Heq|].
    split; exists (Vbool b); (split; [exact Hx|]); (split; [exact Hbool | reflexivity]).
Qed.

(** C2 at [true] with [__GNUC__] defined and at [false] without. *)
Lemma hint_identity_on_bool_witness :
  (eval gcc_x86_64 sample_scope sample_addresses RV (Ebool true) sample_memory
   = Some (Vbool true, sample_memory) /\
   eval gcc_x86_64 sample_scope sample_addresses RV
     (Eeq (ZN_LIKELY true (Ebool true)) (Ebool true)) sample_memory
   = Some (Vbool true, sample_memory))
  /\
  (eval msvc_x64 sample_scope sample_addresses RV (Ebool false) sample_memory
   = Some (Vbool false, sample_memory) /\
   eval msvc_x64 sample_scope sample_addresses RV
     (Eeq (ZN_UNLIKELY false (Ebool false)) (Ebool false)) sample_memory
   = Some (Vbool true, sample_memory)).
Proof.
  split; (split; [reflexivity|]).
  - exact (proj1 (hint_identity_on_bool gcc_x86_64 sample_scope sample_addresses
                    true (Ebool true) true sample_memory eq_refl)).
  - exact (proj1 (proj2 (hint_identity_on_bool msvc_x64 sample_scope
                           sample_addresses false (Ebool false) false
                           sample_memory eq_refl))).
Defined.

(** C4.  Without [__GNUC__] the expansion of either macro is its argument
    itself, so it has the type, the value and the effect of the argument
    and nothing more. *)
Theorem hint_fallback_is_argument (cond : expr) :
  ZN_LIKELY false cond = cond /\
  ZN_UNLIKELY false cond = cond /\
  (forall tgt Γ, typeof tgt Γ (ZN_LIKELY false cond) = typeof tgt Γ cond) /\
  (forall tgt Γ, typeof tgt Γ (ZN_UNLIKELY false cond) = typeof tgt Γ cond) /\
  (forall tgt Γ ρ md m,
     eval tgt Γ ρ md (ZN_LIKELY false cond) m = eval tgt Γ ρ md cond m) /\
  (forall tgt Γ ρ md m,
     eval tgt Γ ρ md (ZN_UNLIKELY false cond) m = eval tgt Γ ρ md cond m).
Proof.
  unfold ZN_LIKELY, ZN_UNLIKELY. repeat split.
Qed.

(** C5.  A conditional on [ZN_LIKELY(c)] or [ZN_UNLIKELY(c)] reaches the
    same decision, runs the same branch and ends with the same outcome and
    memory as the conditional on [c]; so does a whole program whose [if]
    and [while] conditions are wrapped in the macros, whether or not
    [__GNUC__] is defined. *)
Theorem hint_preserves_branching tgt Γ ρ gnuc :
  (forall c m,
     decision (eval tgt Γ ρ RV (ZN_LIKELY gnuc c) m) = decision (eval tgt Γ ρ RV c m) /\
     decision (eval tgt Γ ρ RV (ZN_UNLIKELY gnuc c) m) = decision (eval tgt Γ ρ RV c m)) /\
  (forall c s1 s2 fuel m,
     exec tgt Γ ρ fuel (Sif (ZN_LIKELY gnuc c) s1 s2) m
     = exec tgt Γ ρ fuel (Sif c s1 s2) m /\
     exec tgt Γ ρ fuel (Sif (ZN_UNLIKELY gnuc c) s1 s2) m
     = exec tgt Γ ρ fuel (Sif c s1 s2) m) /\
  (forall h s fuel m,
     exec tgt Γ ρ fuel (annotate gnuc h s) m = exec tgt Γ ρ fuel s m).
Proof.
  split; [|split].
  - intros c m. split.
    + apply (decision_hint_cond tgt Γ ρ gnuc Likely).
    + apply (decision_hint_cond tgt Γ ρ gnuc Unlikely).
  - intros c s1 s2 fuel m. cbn [exec]. split; apply branch_decision.
    + apply (decision_hint_cond tgt Γ ρ gnuc Likely).
    + apply (decision_hint_cond tgt Γ ρ gnuc Unlikely).
  - intros h s fuel m. apply exec_annotate.
Qed.

(** C6.  With [__GNUC__] defined, either macro yields the value of [!!(x)]
    as a [long]: it evaluates its argument once and gives 1 when the
    result is not zero and 0 when it is; on an integer other than 0 and 1
    that is a number different from the argument's, with the same truth
    value. *)
Theorem hint_gnuc_normalizes tgt Γ ρ x m :
  eval tgt Γ ρ RV (ZN_LIKELY true x) m
  = (v <- eval tgt Γ ρ RV (Enot (Enot x));; lift (to_long tgt v)) m
  /\
  eval tgt Γ ρ RV (ZN_UNLIKELY true x) m
  = (v <- eval tgt Γ ρ RV (Enot (Enot x));; lift (to_long tgt v)) m
  /\
  eval tgt Γ ρ RV (ZN_LIKELY true x) m =
  match eval tgt Γ ρ RV x m with
  | Some (v, m') => Some (Vint ILong Signed (if truth v then 1 else 0), m')
  | None => None
  end
  /\
  eval tgt Γ ρ RV (ZN_UNLIKELY true x) m =
  match eval tgt Γ ρ RV x m with
  | Some (v, m') => Some (Vint ILong Signed (if truth v then 1 else 0), m')
  | None => None
  end
  /\
  (forall r s n m',
     eval tgt Γ ρ RV x m = Some (Vint r s n, m') ->
     exists k,
       eval tgt Γ ρ RV (ZN_LIKELY true x) m = Some (Vint ILong Signed k, m') /\
       eval tgt Γ ρ RV (ZN_UNLIKELY true x) m = Some (Vint ILong Signed k, m') /\
       k = (if n =? 0 then 0 else 1) /\
       truth (Vint ILong Signed k) = truth (Vint r s n) /\
       (n <> 0 -> n <> 1 -> k <> n)).
Proof.
  assert (Hb : forall b : bool, Z.b2z b = if b then 1 else 0) by (intros []; reflexivity).
  assert (Hnn : forall c,
    eval tgt Γ ρ RV (Ebuiltin_expect (Enot (Enot x)) (Eint c)) m
    = (v <- eval tgt Γ ρ RV (Enot (Enot x));; lift (to_long tgt v)) m).
  { intros c. cbn [eval prvalue]. unfold bind, ret, lift.
    destruct (eval tgt Γ ρ RV x m) as [[v m']|]; reflexivity. }
  unfold ZN_LIKELY, ZN_UNLIKELY.
  split; [apply Hnn|]. split; [apply Hnn|].
  rewrite !eval_builtin_expect_not_not.
  split; [|split].
  - destruct (eval tgt Γ ρ RV x m) as [[v m']|]; [rewrite Hb|]; reflexivity.
  - destruct (eval tgt Γ ρ RV x m) as [[v m']|]; [rewrite Hb|]; reflexivity.
  - intros r s n m' Hx. rewrite Hx. cbn [truth].
    exists (if n =? 0 then 0 else 1).
    destruct (Z.eqb_spec n 0) as [->|Hn]; cbn [negb Z.b2z].
    + repeat split. intros H; contradiction.
    + repeat split. intros _ H1 Hk. apply H1. symmetry. exact Hk.
Qed.

(** C6 at [i], which holds 2: the macros give 1, and [ZN_LIKELY(i) == i] is
    false. *)
Lemma hint_gnuc_normalizes_witness :
  eval gcc_x86_64 sample_scope sample_addresses RV (Evar "i") sample_memory
  = Some (Vint IInt Signed 2, sample_memory) /\
  eval gcc_x86_64 sample_scope sample_addresses RV
    (Eeq (ZN_LIKELY true (Evar "i")) (Evar "i")) sample_memory
  = Some (Vbool false, sample_memory) /\
  exists k,
    eval gcc_x86_64 sample_scope sample_addresses RV
      (ZN_LIKELY true (Evar "i")) sample_memory
    = Some (Vint ILong Signed k, sample_memory) /\
    eval gcc_x86_64 sample_scope sample_addresses RV
      (ZN_UNLIKELY true (Evar "i")) sample_memory
    = Some (Vint ILong Signed k, sample_memory) /\
    k = 1 /\
    truth (Vint ILong Signed k) = truth (Vint IInt Signed 2) /\
    (2 <> 0 -> 2 <> 1 -> k <> 2).
Proof.
  split; [reflexivity|].
  split; [reflexivity|].
  exact (proj2 (proj2 (proj2 (proj2
           (hint_gnuc_normalizes gcc_x86_64 sample_scope
              sample_addresses (Evar "i") sample_memory))))
           IInt Signed 2 sample_memory eq_refl).
Defined.

(** C9.  [ZN_LIKELY(x)] and [ZN_UNLIKELY(x)] have the same type, the same
    constant value and, in every memory, the same value and effect,
    whether or not [__GNUC__] is defined; where they differ at all it is
    in the second argument of [__builtin_expect], 1 against 0. *)
Theorem hints_agree gnuc x :
  (forall tgt Γ ρ md m,
     eval tgt Γ ρ md (ZN_LIKELY gnuc x) m = eval tgt Γ ρ md (ZN_UNLIKELY gnuc x) m) /\
  (forall tgt Γ,
     typeof tgt Γ (ZN_LIKELY gnuc x) = typeof tgt Γ (ZN_UNLIKELY gnuc x)) /\
  (forall tgt Γ,
     const_eval tgt Γ (ZN_LIKELY gnuc x) = const_eval tgt Γ (ZN_UNLIKELY gnuc x)) /\
  ZN_LIKELY true x = Ebuiltin_expect (Enot (Enot x)) (Eint 1) /\
  ZN_UNLIKELY true x = Ebuiltin_expect (Enot (Enot x)) (Eint 0) /\
  ZN_LIKELY false x = ZN_UNLIKELY false x.
Proof.
  split; [|split; [|split]]; [| | |repeat split].
  - intros tgt Γ ρ md m. destruct gnuc; [|reflexivity].
    destruct md; [reflexivity|].
    unfold ZN_LIKELY, ZN_UNLIKELY. rewrite !eval_builtin_expect_not_not.
    reflexivity.
  - intros tgt Γ. destruct gnuc; reflexivity.
  - intros tgt Γ. destruct gnuc; [|reflexivity].
    unfold ZN_LIKELY, ZN_UNLIKELY. cbn [const_eval].
    destruct (const_eval tgt Γ x); reflexivity.
Qed.

(** The scenario with two sentinels: [if (ZN_UNLIKELY(flag)) return 11; else
    return 22;] returns 11 when [flag] is true, as [if (flag)] does, under
    either definition of the macro. *)
Example sentinel_scenario :
  forall gnuc,
    exec gcc_x86_64 sample_scope sample_addresses 0
      (Sif (ZN_UNLIKELY gnuc (Evar "flag")) (Sreturn (Eint 11)) (Sreturn (Eint 22)))
      sample_memory
    = Some (Oreturn (Vint IInt Signed 11), sample_memory)
    /\
    exec gcc_x86_64 sample_scope sample_addresses 0
      (Sif (Evar "flag") (Sreturn (Eint 11)) (Sreturn (Eint 22)))
      sample_memory
    = Some (Oreturn (Vint IInt Signed 11), sample_memory).
Proof. intros []; split; reflexivity. Qed.

(** * More of the header *)

(** ** The directives *)

Lemma directive_nested_ind (P : directive -> Prop) :
  (forall name m, P (Define name m)) ->
  (forall name, P (Undef name)) ->
  P Error ->
  (forall name body, Forall P body -> P (Ifndef name body)) ->
  (forall name body orelse,
     Forall P body -> Forall P orelse -> P (If_defined name body orelse)) ->
  forall d, P d.
Proof.
  intros HD HU HX HI HE.
  fix IH 1. intros [name m | name | | name body | name body orelse].
  - apply HD.
  - apply HU.
  - apply HX.
  - apply HI. induction body as [|d ds IHds]; constructor; [apply IH | exact IHds].
  - apply HE.
    + induction body as [|d ds IHds]; constructor; [apply IH | exact IHds].
    + induction orelse as [|d ds IHds]; constructor; [apply IH | exact IHds].
Qed.

Lemma preprocess_Ifndef name body tbl :
  preprocess (Ifndef name body) tbl =
  match tbl !! name with
  | None => include body tbl
  | Some _ => Some tbl
  end.
Proof.
  cbn [preprocess]. destruct (tbl !! name); [reflexivity|].
  revert tbl. induction body as [|d ds IH]; intros tbl; [reflexivity|].
  cbn [include]. destruct (preprocess d tbl); [apply IH | reflexivity].
Qed.

Lemma preprocess_If_defined name body orelse tbl :
  preprocess (If_defined name body orelse) tbl =
  match tbl !! name with
  | Some _ => include body tbl
  | None => include orelse tbl
  end.
Proof.
  cbn [preprocess]. destruct (tbl !! name).
  - revert tbl. induction body as [|d ds IH]; intros tbl; [reflexivity|].
    cbn [include]. destruct (preprocess d tbl); [apply IH | reflexivity].
  - revert tbl. induction orelse as [|d ds IH]; intros tbl; [reflexivity|].
    cbn [include]. destruct (preprocess d tbl); [apply IH | reflexivity].
Qed.

Lemma preprocess_Define name m tbl :
  preprocess (Define name m) tbl = Some (<[name := m]> tbl).
Proof. reflexivity. Qed.

Lemma names_of_Ifndef name body :
  names_of (Ifndef name body) = names_of_file body.
Proof. reflexivity. Qed.

Lemma names_of_If_defined name body orelse :
  names_of (If_defined name body orelse)
  = names_of_file body ++ names_of_file orelse.
Proof. reflexivity. Qed.

(** A name that no directive defines or undefines is left as it was. *)
Lemma preprocess_frame d :
  forall tbl tbl' n,
    preprocess d tbl = Some tbl' -> n ∉ names_of d -> tbl' !! n = tbl !! n.
Proof.
  assert (Hgroup : forall ds,
    Forall (fun d => forall tbl tbl' n,
      preprocess d tbl = Some tbl' -> n ∉ names_of d -> tbl' !! n = tbl !! n) ds ->
    forall tbl tbl' n, include ds tbl = Some tbl' -> n ∉ names_of_file ds ->
      tbl' !! n = tbl !! n).
  { intros ds H. induction H as [|d0 ds Hd _ IHds]; intros tbl tbl' n Hp Hn.
    - injection Hp as <-. reflexivity.
    - cbn [include] in Hp.
      destruct (preprocess d0 tbl) as [t1|] eqn:E1; [|discriminate].
      unfold names_of_file in Hn. cbn [flat_map] in Hn.
      rewrite not_elem_of_app in Hn. destruct Hn as [Hn1 Hn2].
      rewrite (IHds _ _ _ Hp Hn2). eapply Hd; eauto. }
  induction d as [name m0 | name | | name body IH | name body orelse IHb IHe]
    using directive_nested_ind; intros tbl tbl' n Hp Hn.
  - cbn [preprocess] in Hp. cbn [names_of] in Hn.
    rewrite not_elem_of_cons in Hn. destruct Hn as [Hn _].
    injection Hp as <-. rewrite lookup_insert_ne; [reflexivity|]. congruence.
  - cbn [preprocess] in Hp. cbn [names_of] in Hn.
    rewrite not_elem_of_cons in Hn. destruct Hn as [Hn _].
    injection Hp as <-. rewrite lookup_delete_ne; [reflexivity|]. congruence.
  - discriminate Hp.
  - rewrite preprocess_Ifndef in Hp. rewrite names_of_Ifndef in Hn.
    destruct (tbl !! name).
    + injection Hp as <-. reflexivity.
    + exact (Hgroup body IH _ _ _ Hp Hn).
  - rewrite preprocess_If_defined in Hp. rewrite names_of_If_defined in Hn.
    rewrite not_elem_of_app in Hn. destruct Hn as [Hn1 Hn2].
    destruct (tbl !! name).
    + exact (Hgroup body IHb _ _ _ Hp Hn1).
    + exact (Hgroup orelse IHe _ _ _ Hp Hn2).
Qed.

Lemma include_frame ds :
  forall tbl tbl' n,
    include ds tbl = Some tbl' -> n ∉ names_of_file ds -> tbl' !! n = tbl !! n.
Proof.
  induction ds as [|d ds IH]; intros tbl tbl' n Hp Hn.
  - injection Hp as <-. reflexivity.
  - cbn [include] in Hp. destruct (preprocess d tbl) as [t1|] eqn:E1; [|discriminate].
    unfold names_of_file in Hn. cbn [flat_map] in Hn.
    rewrite not_elem_of_app in Hn. destruct Hn as [Hn1 Hn2].
    rewrite (IH _ _ _ Hp Hn2). eapply preprocess_frame; eauto.
Qed.

(** A file wrapped in an include guard that the rest of the file leaves
    alone: once it has been included, including it again changes
    nothing. *)
Lemma include_guarded g m rest tbl tbl' :
  g ∉ names_of_file rest ->
  include [Ifndef g (Define g m :: rest)] tbl = Some tbl' ->
  is_Some (tbl' !! g) /\ include [Ifndef g (Define g m :: rest)] tbl' = Some tbl'.
Proof.
  intros Hrest. cbn [include]. rewrite preprocess_Ifndef.
  destruct (tbl !! g) as [m'|] eqn:E.
  - intros [= <-]. split; [eauto|].
    cbn [include]. rewrite preprocess_Ifndef, E. reflexivity.
  - intros H.
    destruct (include (Define g m :: rest) tbl) as [t|] eqn:E1; [|discriminate].
    injection H as <-.
    assert (Hg : t !! g = Some m).
    { cbn [include preprocess] in E1.
      rewrite (include_frame _ _ _ _ E1 Hrest). apply lookup_insert_eq. }
    split; [eauto|]. cbn [include]. rewrite preprocess_Ifndef, Hg. reflexivity.
Qed.

(** What including the file does to a macro table. *)
Lemma include_macros_h tbl :
  include macros_h tbl =
  Some
    match tbl !! "ZYLANN_MACROS_H"%string with
    | Some _ => tbl
    | None =>
        <["ZN_UNLIKELY"%string :=
            Function_like "x" (ZN_UNLIKELY (defined_GNUC tbl) (Evar "x"))]>
          (<["ZN_LIKELY"%string :=
               Function_like "x" (ZN_LIKELY (defined_GNUC tbl) (Evar "x"))]>
             (<["ZN_ARRAY_LENGTH"%string :=
                  Function_like "a" (ZN_ARRAY_LENGTH (Evar "a"))]>
                (<["ZYLANN_MACROS_H"%string := Object_like None]> tbl)))
    end.
Proof.
  unfold macros_h. cbn [include]. rewrite preprocess_Ifndef.
  destruct (tbl !! "ZYLANN_MACROS_H"%string) as [g|] eqn:Hg; [reflexivity|].
  cbn [include]. rewrite !preprocess_Define, preprocess_If_defined.
  rewrite !lookup_insert_ne by discriminate.
  unfold defined_GNUC.
  destruct (tbl !! "__GNUC__"%string) as [gm|] eqn:EG.
  - rewrite bool_decide_true by eauto. reflexivity.
  - rewrite bool_decide_false by (intros [? ?]; discriminate). reflexivity.
Qed.



(** X2.  The include guard: after a successful inclusion
    [ZYLANN_MACROS_H] is defined and including the file again gives the
    same macro table; and wherever [ZYLANN_MACROS_H] is defined already,
    inclusion changes nothing at all. *)
Theorem macros_h_include_guard tbl :
  (forall tbl',
     include macros_h tbl = Some tbl' ->
     is_Some (tbl' !! "ZYLANN_MACROS_H"%string) /\
     include macros_h tbl' = Some tbl') /\
  (is_Some (tbl !! "ZYLANN_MACROS_H"%string) -> include macros_h tbl = Some tbl).
Proof.
  split.
  - intros tbl' H. refine (include_guarded _ _ _ _ _ _ H).
    change (names_of_file _) with
      ["ZN_ARRAY_LENGTH"; "ZN_LIKELY"; "ZN_UNLIKELY";
       "ZN_LIKELY"; "ZN_UNLIKELY"]%string.
    rewrite !elem_of_cons, elem_of_nil.
    intros [H1|[H1|[H1|[H1|[H1|[]]]]]]; discriminate H1.
  - intros [m Hm]. unfold macros_h. cbn [include].
    rewrite preprocess_Ifndef, Hm. reflexivity.
Qed.

(** X2 from MSVC's predefined macros. *)
Lemma macros_h_include_guard_witness :
  exists tbl',
    include macros_h msvc_predefined = Some tbl' /\
    is_Some (tbl' !! "ZYLANN_MACROS_H"%string) /\
    include macros_h tbl' = Some tbl'.
Proof.
  destruct (include macros_h msvc_predefined) as [tbl'|] eqn:E.
  - exists tbl'. split; [reflexivity|].
    exact (proj1 (macros_h_include_guard msvc_predefined) tbl' E).
  - vm_compute in E. discriminate E.
Defined.

(** X3.  Including the file always succeeds.  It leaves every name other
    than its own four exactly as it was, so it does not change whether
    [__GNUC__] is defined, and it undefines nothing.  Where
    [ZYLANN_MACROS_H] was not defined, its four names end up defined as
    the file says, whatever an earlier definition of them was: that one
    is replaced. *)
Theorem macros_h_frame tbl :
  exists tbl',
    include macros_h tbl = Some tbl' /\
    (forall n, n ∉ macros_h_names -> tbl' !! n = tbl !! n) /\
    defined_GNUC tbl' = defined_GNUC tbl /\
    (forall n, is_Some (tbl !! n) -> is_Some (tbl' !! n)) /\
    (tbl !! "ZYLANN_MACROS_H"%string = None ->
     tbl' !! "ZYLANN_MACROS_H"%string = Some (Object_like None) /\
     tbl' !! "ZN_ARRAY_LENGTH"%string
     = Some (Function_like "a" (ZN_ARRAY_LENGTH (Evar "a"))) /\
     tbl' !! "ZN_LIKELY"%string
     = Some (Function_like "x" (ZN_LIKELY (defined_GNUC tbl) (Evar "x"))) /\
     tbl' !! "ZN_UNLIKELY"%string
     = Some (Function_like "x" (ZN_UNLIKELY (defined_GNUC tbl) (Evar "x")))).
Proof.
  destruct (include macros_h tbl) as [tbl'|] eqn:H.
  2:{ rewrite include_macros_h in H. discriminate H. }
  exists tbl'. split; [reflexivity|].
  assert (Hframe : forall n, n ∉ macros_h_names -> tbl' !! n = tbl !! n).
  { intros n Hn. eapply include_frame; [exact H|].
    intros Hin. apply Hn. unfold macros_h_names.
    change (names_of_file macros_h) with
      ["ZYLANN_MACROS_H"; "ZN_ARRAY_LENGTH"; "ZN_LIKELY"; "ZN_UNLIKELY";
       "ZN_LIKELY"; "ZN_UNLIKELY"]%string in Hin.
    rewrite !elem_of_cons in Hin. rewrite !elem_of_cons. tauto. }
  split; [exact Hframe|].
  split.
  { unfold defined_GNUC. rewrite Hframe; [reflexivity|].
    unfold macros_h_names. rewrite !elem_of_cons, elem_of_nil.
    intros [H1|[H1|[H1|[H1|[]]]]]; discriminate H1. }
  rewrite include_macros_h in H. injection H as <-.
  split.
  - intros n Hn. destruct (tbl !! "ZYLANN_MACROS_H"%string); [exact Hn|].
    rewrite !lookup_insert_is_Some'. auto.
  - intros Hg. rewrite Hg.
    rewrite !lookup_insert_ne by discriminate.
    rewrite !lookup_insert_eq.
    rewrite (lookup_insert_ne _ "ZN_UNLIKELY"%string "ZN_LIKELY"%string) by discriminate.
    rewrite (lookup_insert_ne _ "ZN_UNLIKELY"%string "ZN_ARRAY_LENGTH"%string)
      by discriminate.
    rewrite (lookup_insert_ne _ "ZN_LIKELY"%string "ZN_ARRAY_LENGTH"%string)
      by discriminate.
    rewrite !lookup_insert_eq.
    repeat split.
Qed.

(** X3 where a translation unit compiled by GCC has defined [ZN_LIKELY] as
    1 before it includes the file: that definition is replaced and
    [__GNUC__] is still 13. *)
Lemma macros_h_frame_witness :
  exists tbl',
    include macros_h
      (<["ZN_LIKELY"%string := Object_like (Some (Eint 1))]> gcc_predefined)
    = Some tbl' /\
    tbl' !! "__GNUC__"%string = Some (Object_like (Some (Eint 13))) /\
    tbl' !! "ZN_LIKELY"%string
    = Some (Function_like "x" (Ebuiltin_expect (Enot (Enot (Evar "x"))) (Eint 1))).
Proof.
  destruct (macros_h_frame
              (<["ZN_LIKELY"%string := Object_like (Some (Eint 1))]> gcc_predefined))
    as (tbl' & H & Hframe & _ & _ & Hdef).
  exists tbl'. split; [exact H|]. split.
  - rewrite Hframe; [reflexivity|].
    unfold macros_h_names. rewrite !elem_of_cons, elem_of_nil.
    intros [H1|[H1|[H1|[H1|[]]]]]; discriminate H1.
  - exact (proj1 (proj2 (proj2 (Hdef eq_refl)))).
Defined.

(** ** ZN_ARRAY_LENGTH as a bound *)

Lemma typeof_Eindex_literal tgt Γ a i :
  typeof tgt Γ (Eindex a (Eint i)) = typeof tgt Γ (Eindex a (Eint 0)).
Proof. reflexivity. Qed.

(** X4.  On an array, the value [n] of [ZN_ARRAY_LENGTH(a)] times the size
    of an element is the size of the array, and for every index
    [0 <= i < n] the element [a[i]] lies at [i] element sizes from the
    start of the array and ends within it. *)
Theorem ZN_ARRAY_LENGTH_bounds_indices tgt Γ ρ a T N s base m m' :
  wf_target tgt ->
  typeof tgt Γ a = Some (Tarray T N) ->
  1 <= N ->
  sizeof_type tgt T = Some s ->
  N * s <= max_object_size tgt ->
  eval tgt Γ ρ RV a m = Some (Vptr base, m') ->
  exists n total,
    (forall m0, eval tgt Γ ρ RV (ZN_ARRAY_LENGTH a) m0
                = Some (Vint (size_t_rank tgt) Unsigned n, m0)) /\
    sizeof_type tgt (Tarray T N) = Some total /\
    n * s = total /\
    forall i, 0 <= i < n ->
      eval tgt Γ ρ LV (Eindex a (Eint i)) m = Some (Vptr (base + i * s), m') /\
      base <= base + i * s /\
      base + i * s + s <= base + total.
Proof.
  intros Hwf Ha HN Hs Hfit Hbase.
  pose proof (sizeof_type_bounds _ _ _ Hwf Hs) as Hb.
  exists N, (N * s). split; [|split; [|split]].
  - intros m0. rewrite eval_ZN_ARRAY_LENGTH, Ha. cbn [mbind option_bind].
    rewrite (array_length_of_array _ _ _ _ Hwf HN Hs Hfit). reflexivity.
  - apply sizeof_array; assumption.
  - reflexivity.
  - intros i Hi.
    assert (Hty : typeof tgt Γ (Eindex a (Eint i)) = Some T).
    { rewrite typeof_Eindex_literal, typeof_first_element, Ha.
      cbn [mbind option_bind].
      change (subscript_type tgt (Tarray T N)) with (Some T).
      cbn [mbind option_bind]. rewrite Hs. reflexivity. }
    split; [|nia].
    change (eval tgt Γ ρ LV (Eindex a (Eint i)) m) with
      ((t <- lift (typeof tgt Γ (Eindex a (Eint i)));;
        s0 <- lift (sizeof_type tgt t);;
        p <- eval tgt Γ ρ RV a;;
        vi <- eval tgt Γ ρ RV (Eint i);;
        match p, promoted_val tgt vi with
        | Vptr b, Some (_, n) => access tgt LV t (b + n * s0)
        | _, _ => lift None
        end) m).
    unfold bind at 1, lift at 1. rewrite Hty.
    unfold bind at 1, lift at 1. rewrite Hs.
    unfold bind at 1. rewrite Hbase.
    reflexivity.
Qed.

(** X4 at [int a[1024]], which starts at address 4096. *)
Lemma ZN_ARRAY_LENGTH_bounds_indices_witness :
  wf_target gcc_x86_64 /\
  eval gcc_x86_64 sample_scope sample_addresses RV (Evar "a") sample_memory
  = Some (Vptr 4096, sample_memory) /\
  exists n total,
    (forall m0, eval gcc_x86_64 sample_scope sample_addresses RV
                  (ZN_ARRAY_LENGTH (Evar "a")) m0
                = Some (Vint ILong Unsigned n, m0)) /\
    sizeof_type gcc_x86_64 (Tarray Tint 1024) = Some total /\
    n * 4 = total /\
    forall i, 0 <= i < n ->
      eval gcc_x86_64 sample_scope sample_addresses LV
        (Eindex (Evar "a") (Eint i)) sample_memory
      = Some (Vptr (4096 + i * 4), sample_memory) /\
      4096 <= 4096 + i * 4 /\
      4096 + i * 4 + 4 <= 4096 + total.
Proof.
  split; [exact gcc_x86_64_wf|].
  split; [reflexivity|].
  apply (ZN_ARRAY_LENGTH_bounds_indices gcc_x86_64 sample_scope sample_addresses
           (Evar "a") Tint 1024 4 4096 sample_memory sample_memory gcc_x86_64_wf).
  - reflexivity.
  - lia.
  - reflexivity.
  - apply Z.leb_le. reflexivity.
  - reflexivity.
Defined.

(** X5.  On an array of arrays [T g[R][C]], [ZN_ARRAY_LENGTH(g)] is the
    number of rows [R] and [ZN_ARRAY_LENGTH(g[i])] the number of columns
    [C], for any index expression [i], which is not evaluated; the array
    holds [R * C] elements of type [T]. *)
Theorem ZN_ARRAY_LENGTH_rows_and_columns tgt Γ g T R C s i ti :
  wf_target tgt ->
  typeof tgt Γ g = Some (Tarray (Tarray T C) R) ->
  sizeof_type tgt T = Some s ->
  1 <= R -> 1 <= C ->
  R * (C * s) <= max_object_size tgt ->
  typeof tgt Γ i = Some ti ->
  is_integral ti = true ->
  (forall ρ m, eval tgt Γ ρ RV (ZN_ARRAY_LENGTH g) m
               = Some (Vint (size_t_rank tgt) Unsigned R, m)) /\
  (forall ρ m, eval tgt Γ ρ RV (ZN_ARRAY_LENGTH (Eindex g i)) m
               = Some (Vint (size_t_rank tgt) Unsigned C, m)) /\
  sizeof_type tgt (Tarray (Tarray T C) R) = Some (R * C * s).
Proof.
  intros Hwf Hg Hs HR HC Hfit Hi Hint.
  pose proof (sizeof_type_bounds _ _ _ Hwf Hs) as Hb.
  assert (HfitC : C * s <= max_object_size tgt) by nia.
  pose proof (sizeof_array _ _ _ _ Hs HC HfitC) as Hrow.
  assert (Hgi : typeof tgt Γ (Eindex g i) = Some (Tarray T C)).
  { cbn [typeof]. rewrite Hg, Hi. cbn [mbind option_bind].
    rewrite Hint.
    change (subscript_type tgt (Tarray (Tarray T C) R)) with (Some (Tarray T C)).
    cbn [mbind option_bind]. rewrite Hrow. reflexivity. }
  split; [|split].
  - intros ρ m. rewrite eval_ZN_ARRAY_LENGTH, Hg. cbn [mbind option_bind].
    rewrite (array_length_of_array _ _ _ _ Hwf HR Hrow Hfit). reflexivity.
  - intros ρ m. rewrite eval_ZN_ARRAY_LENGTH, Hgi. cbn [mbind option_bind].
    rewrite (array_length_of_array _ _ _ _ Hwf HC Hs HfitC). reflexivity.
  - rewrite (sizeof_array _ _ _ _ Hrow HR Hfit). f_equal. lia.
Qed.

(** X5 at [float grid[5][3]] with the index [i++]. *)
Lemma ZN_ARRAY_LENGTH_rows_and_columns_witness :
  wf_target gcc_x86_64 /\
  typeof gcc_x86_64 sample_scope (Evar "grid")
  = Some (Tarray (Tarray (Tfloating FFloat) 3) 5) /\
  (forall ρ m, eval gcc_x86_64 sample_scope ρ RV (ZN_ARRAY_LENGTH (Evar "grid")) m
               = Some (Vint ILong Unsigned 5, m)) /\
  (forall ρ m, eval gcc_x86_64 sample_scope ρ RV
                 (ZN_ARRAY_LENGTH (Eindex (Evar "grid") (Epostinc (Evar "i")))) m
               = Some (Vint ILong Unsigned 3, m)) /\
  sizeof_type gcc_x86_64 (Tarray (Tarray (Tfloating FFloat) 3) 5) = Some (5 * 3 * 4).
Proof.
  split; [exact gcc_x86_64_wf|].
  split; [reflexivity|].
  apply (ZN_ARRAY_LENGTH_rows_and_columns gcc_x86_64 sample_scope (Evar "grid")
           (Tfloating FFloat) 5 3 4 (Epostinc (Evar "i")) Tint gcc_x86_64_wf).
  - reflexivity.
  - reflexivity.
  - lia.
  - lia.
  - apply Z.leb_le. reflexivity.
  - reflexivity.
  - reflexivity.
Defined.

(** X6.  On a pointer to [T] the value [q] of [ZN_ARRAY_LENGTH] is the
    number of whole [T]s that fit a pointer: it lies between 0 and the
    size of a pointer, and it is 0 exactly when [T] is larger than a
    pointer. *)
Theorem ZN_ARRAY_LENGTH_pointer_range tgt Γ p T s :
  wf_target tgt ->
  typeof tgt Γ p = Some (Tpointer T) ->
  sizeof_type tgt T = Some s ->
  exists q,
    (forall ρ m, eval tgt Γ ρ RV (ZN_ARRAY_LENGTH p) m
                 = Some (Vint (size_t_rank tgt) Unsigned q, m)) /\
    0 <= q <= sizeof_pointer tgt /\
    q * s <= sizeof_pointer tgt < (q + 1) * s /\
    (q = 0 <-> sizeof_pointer tgt < s).
Proof.
  intros Hwf Hp Hs.
  pose proof (sizeof_type_bounds _ _ _ Hwf Hs) as Hb.
  pose proof (wf_pointer _ Hwf) as Hptr.
  exists (sizeof_pointer tgt / s).
  split.
  { intros ρ m. rewrite eval_ZN_ARRAY_LENGTH, Hp. cbn [mbind option_bind].
    rewrite (array_length_of_pointer _ _ _ Hwf Hs). reflexivity. }
  pose proof (Z.div_mod (sizeof_pointer tgt) s ltac:(lia)) as Hdm.
  pose proof (Z.mod_pos_bound (sizeof_pointer tgt) s ltac:(lia)) as Hmod.
  assert (0 <= sizeof_pointer tgt / s) by (apply Z.div_pos; lia).
  split; [nia|]. split; [nia|].
  split.
  - intros Hq. rewrite Hq in Hdm. lia.
  - intros Hlt. apply Z.div_small. lia.
Qed.

(** X6 at a [Vector3i* v]: 12 bytes do not fit 8, the macro gives 0. *)
Lemma ZN_ARRAY_LENGTH_pointer_range_witness :
  wf_target gcc_x86_64 /\
  sizeof_type gcc_x86_64 (Tclass "Vector3i") = Some 12 /\
  eval gcc_x86_64 (<["v"%string := Tpointer (Tclass "Vector3i")]> sample_scope)
    sample_addresses RV (ZN_ARRAY_LENGTH (Evar "v")) sample_memory
  = Some (Vint ILong Unsigned 0, sample_memory) /\
  exists q,
    (forall ρ m,
       eval gcc_x86_64 (<["v"%string := Tpointer (Tclass "Vector3i")]> sample_scope)
         ρ RV (ZN_ARRAY_LENGTH (Evar "v")) m
       = Some (Vint ILong Unsigned q, m)) /\
    0 <= q <= 8 /\
    q * 12 <= 8 < (q + 1) * 12 /\
    (q = 0 <-> 8 < 12).
Proof.
  split; [exact gcc_x86_64_wf|].
  split; [reflexivity|].
  split; [reflexivity|].
  exact (ZN_ARRAY_LENGTH_pointer_range gcc_x86_64
           (<["v"%string := Tpointer (Tclass "Vector3i")]> sample_scope)
           (Evar "v") (Tclass "Vector3i") 12 gcc_x86_64_wf eq_refl eq_refl).
Defined.

(** ** The hints under other operators *)

(** X7.  A hint applied to a hinted expression evaluates as the outer hint
    applied to the expression itself, and has its type, whether or not
    [__GNUC__] is defined. *)
Theorem hint_of_hint gnuc x tgt Γ ρ md m :
  eval tgt Γ ρ md (ZN_LIKELY gnuc (ZN_LIKELY gnuc x)) m
  = eval tgt Γ ρ md (ZN_LIKELY gnuc x) m /\
  eval tgt Γ ρ md (ZN_LIKELY gnuc (ZN_UNLIKELY gnuc x)) m
  = eval tgt Γ ρ md (ZN_LIKELY gnuc x) m /\
  eval tgt Γ ρ md (ZN_UNLIKELY gnuc (ZN_LIKELY gnuc x)) m
  = eval tgt Γ ρ md (ZN_UNLIKELY gnuc x) m /\
  eval tgt Γ ρ md (ZN_UNLIKELY gnuc (ZN_UNLIKELY gnuc x)) m
  = eval tgt Γ ρ md (ZN_UNLIKELY gnuc x) m /\
  typeof tgt Γ (ZN_LIKELY gnuc (ZN_UNLIKELY gnuc x))
  = typeof tgt Γ (ZN_LIKELY gnuc x) /\
  typeof tgt Γ (ZN_UNLIKELY gnuc (ZN_LIKELY gnuc x))
  = typeof tgt Γ (ZN_UNLIKELY gnuc x).
Proof.
  destruct gnuc; [|repeat split].
  unfold ZN_LIKELY, ZN_UNLIKELY.
  assert (He : forall c1 c2,
    eval tgt Γ ρ md
      (Ebuiltin_expect
         (Enot (Enot (Ebuiltin_expect (Enot (Enot x)) (Eint c1)))) (Eint c2)) m
    = eval tgt Γ ρ md (Ebuiltin_expect (Enot (Enot x)) (Eint c2)) m).
  { intros c1 c2. destruct md; [reflexivity|].
    rewrite (eval_builtin_expect_not_not tgt Γ ρ (Ebuiltin_expect _ _)).
    rewrite !eval_builtin_expect_not_not.
    destruct (eval tgt Γ ρ RV x m) as [[v m']|]; [|reflexivity].
    rewrite truth_b2z. reflexivity. }
  assert (Ht : forall c1 c2,
    typeof tgt Γ
      (Ebuiltin_expect
         (Enot (Enot (Ebuiltin_expect (Enot (Enot x)) (Eint c1)))) (Eint c2))
    = typeof tgt Γ (Ebuiltin_expect (Enot (Enot x)) (Eint c2))).
  { intros c1 c2. cbn [typeof].
    destruct (typeof tgt Γ x) as [t|]; [|reflexivity]. cbn [mbind option_bind].
    destruct (is_scalar (decay t)); reflexivity. }
  repeat split; (apply He || apply Ht).
Qed.

Lemma paste_not_binary x : paste_not x = Enot x <-> is_binary x = false.
Proof.
  destruct x as [b|n|y|a i|e|e|e1 e2|e1 e2|e|e c]; cbn [paste_not is_binary];
    try (split; [reflexivity | reflexivity]).
  - split; discriminate.
  - split; [|discriminate]. destruct e1; discriminate.
Qed.

(** X8.  With [__GNUC__] defined, [!ZN_LIKELY(x)] and [!ZN_UNLIKELY(x)]
    have the type, the value and the effect of [!(x)] for every argument.
    Without it the macros expand to the argument, not parenthesised, so
    [!ZN_LIKELY(x)] is [!(x)] exactly when [x] is not a binary
    expression: [!ZN_LIKELY(i == 1)] is [(!i) == 1]. *)
Theorem not_of_hint x tgt Γ ρ md m :
  eval tgt Γ ρ md (not_ZN_LIKELY true x) m = eval tgt Γ ρ md (Enot x) m /\
  eval tgt Γ ρ md (not_ZN_UNLIKELY true x) m = eval tgt Γ ρ md (Enot x) m /\
  typeof tgt Γ (not_ZN_LIKELY true x) = typeof tgt Γ (Enot x) /\
  typeof tgt Γ (not_ZN_UNLIKELY true x) = typeof tgt Γ (Enot x) /\
  (not_ZN_LIKELY false x = Enot x <-> is_binary x = false) /\
  (not_ZN_UNLIKELY false x = Enot x <-> is_binary x = false).
Proof.
  unfold not_ZN_LIKELY, not_ZN_UNLIKELY, ZN_LIKELY, ZN_UNLIKELY.
  assert (He : forall c,
    eval tgt Γ ρ md (Enot (Ebuiltin_expect (Enot (Enot x)) (Eint c))) m
    = eval tgt Γ ρ md (Enot x) m).
  { intros c. destruct md; [reflexivity|].
    change (eval tgt Γ ρ RV (Enot (Ebuiltin_expect (Enot (Enot x)) (Eint c))) m)
      with ((v <- eval tgt Γ ρ RV (Ebuiltin_expect (Enot (Enot x)) (Eint c));;
             ret (sem_not v)) m).
    unfold bind at 1. rewrite eval_builtin_expect_not_not.
    cbn [eval prvalue]. unfold bind.
    destruct (eval tgt Γ ρ RV x m) as [[v m']|]; [|reflexivity].
    unfold ret, sem_not. rewrite truth_b2z. reflexivity. }
  assert (Ht : forall c,
    typeof tgt Γ (Enot (Ebuiltin_expect (Enot (Enot x)) (Eint c)))
    = typeof tgt Γ (Enot x)).
  { intros c. cbn [typeof].
    destruct (typeof tgt Γ x) as [t|]; [|reflexivity]. cbn [mbind option_bind].
    destruct (is_scalar (decay t)); reflexivity. }
  split; [apply He|]. split; [apply He|].
  split; [apply Ht|]. split; [apply Ht|].
  split; apply paste_not_binary.
Qed.

(** X8 at [i == 1] with [i] holding 2: [!(i == 1)] is true, and so is
    [!ZN_LIKELY(i == 1)] with [__GNUC__]; without it the expansion is
    [(!i) == 1], which is false. *)
Lemma not_of_hint_witness :
  eval gcc_x86_64 sample_scope sample_addresses RV
    (Enot (Eeq (Evar "i") (Eint 1))) sample_memory
  = Some (Vbool true, sample_memory) /\
  eval gcc_x86_64 sample_scope sample_addresses RV
    (not_ZN_LIKELY true (Eeq (Evar "i") (Eint 1))) sample_memory
  = Some (Vbool true, sample_memory) /\
  not_ZN_LIKELY false (Eeq (Evar "i") (Eint 1))
  = Eeq (Enot (Evar "i")) (Eint 1) /\
  eval msvc_x64 sample_scope sample_addresses RV
    (not_ZN_LIKELY false (Eeq (Evar "i") (Eint 1))) sample_memory
  = Some (Vbool false, sample_memory) /\
  not_ZN_UNLIKELY false (Evar "flag") = Enot (Evar "flag").
Proof.
  split; [reflexivity|].
  split.
  { rewrite (proj1 (not_of_hint (Eeq (Evar "i") (Eint 1)) gcc_x86_64 sample_scope
                      sample_addresses RV sample_memory)).
    reflexivity. }
  split; [reflexivity|].
  split; [reflexivity|].
  apply (proj2 (proj2 (proj2 (proj2 (proj2
           (not_of_hint (Evar "flag") gcc_x86_64 sample_scope
              sample_addresses RV sample_memory)))))).
  reflexivity.
Defined.

Lemma typeof_Ebuiltin_expect tgt Γ e c :
  typeof tgt Γ (Ebuiltin_expect e c) =
  t1 ← typeof tgt Γ e;
  t2 ← typeof tgt Γ c;
  if is_arithmetic t1 && is_arithmetic t2 then Some Tlong else None.
Proof. reflexivity. Qed.

(** X9.  On a scalar (or array) argument of type [t] the hinted expression
    has type [long] where [__GNUC__] is defined and type [t] where it is
    not, so the two agree only for [t = long]; and it is the [!!] that
    admits an argument that is not arithmetic, a pointer or an array,
    which [__builtin_expect] alone does not take. *)
Theorem hint_type tgt Γ x t :
  typeof tgt Γ x = Some t ->
  is_scalar (decay t) = true ->
  typeof tgt Γ (ZN_LIKELY true x) = Some Tlong /\
  typeof tgt Γ (ZN_UNLIKELY true x) = Some Tlong /\
  typeof tgt Γ (ZN_LIKELY false x) = Some t /\
  typeof tgt Γ (ZN_UNLIKELY false x) = Some t /\
  (typeof tgt Γ (ZN_LIKELY true x) = typeof tgt Γ (ZN_LIKELY false x) <-> t = Tlong) /\
  (is_arithmetic t = false -> typeof tgt Γ (Ebuiltin_expect x (Eint 1)) = None) /\
  (is_arithmetic t = true ->
   typeof tgt Γ (Ebuiltin_expect x (Eint 1)) = Some Tlong).
Proof.
  intros Hx Hsc.
  assert (Hl : forall c,
    typeof tgt Γ (Ebuiltin_expect (Enot (Enot x)) (Eint c)) = Some Tlong).
  { intros c. cbn [typeof]. rewrite Hx. cbn [mbind option_bind].
    rewrite Hsc. reflexivity. }
  unfold ZN_LIKELY, ZN_UNLIKELY. rewrite !Hl, Hx.
  repeat split.
  - intros [= <-]. reflexivity.
  - intros ->. reflexivity.
  - intros Hni. rewrite typeof_Ebuiltin_expect, Hx. cbn [mbind option_bind].
    rewrite Hni. reflexivity.
  - intros Hni. rewrite typeof_Ebuiltin_expect, Hx. cbn [mbind option_bind].
    rewrite Hni. reflexivity.
Qed.

(** X9 at [bool flag], at the pointer [int* p] and at the literal
    3000000000, which is a [long] for GCC on x86-64. *)
Lemma hint_type_witness :
  (typeof gcc_x86_64 sample_scope (Evar "flag") = Some Tbool /\
   typeof gcc_x86_64 sample_scope (ZN_LIKELY true (Evar "flag")) = Some Tlong /\
   typeof msvc_x64 sample_scope (ZN_LIKELY false (Evar "flag")) = Some Tbool)
  /\
  (typeof gcc_x86_64 sample_scope (Evar "p") = Some (Tpointer Tint) /\
   typeof gcc_x86_64 sample_scope (ZN_UNLIKELY true (Evar "p")) = Some Tlong /\
   typeof gcc_x86_64 sample_scope (Ebuiltin_expect (Evar "p") (Eint 1)) = None)
  /\
  (typeof gcc_x86_64 sample_scope (Eint 3000000000) = Some Tlong /\
   (typeof gcc_x86_64 sample_scope (ZN_LIKELY true (Eint 3000000000))
    = typeof gcc_x86_64 sample_scope (ZN_LIKELY false (Eint 3000000000))
    <-> Tlong = Tlong)).
Proof.
  split; [|split]; (split; [reflexivity|]).
  - split.
    + exact (proj1 (hint_type gcc_x86_64 sample_scope (Evar "flag") Tbool
                      eq_refl eq_refl)).
    + exact (proj1 (proj2 (proj2 (hint_type msvc_x64 sample_scope (Evar "flag")
                                    Tbool eq_refl eq_refl)))).
  - destruct (hint_type gcc_x86_64 sample_scope (Evar "p") (Tpointer Tint)
                eq_refl eq_refl) as (_ & Hu & _ & _ & _ & Hb & _).
    split; [exact Hu | exact (Hb eq_refl)].
  - exact (proj1 (proj2 (proj2 (proj2 (proj2
             (hint_type gcc_x86_64 sample_scope (Eint 3000000000) Tlong
                eq_refl eq_refl)))))).
Defined.
